(** * ammSim: constant-product swap simulator (src/main.cpp)

    Shallow embedding of [require], [getAmountOut] and [simulateSwap].

    The C++ code computes on [double].  The embedding is written once,
    over an interface [Scalar] that supplies the arithmetic the code
    uses (the literals 0.0, 1.0 and 100.0, the four operations and the
    comparisons < and <=), and is read at two instances:

    - [binary64]: IEEE-754 double precision, round to nearest even, as
      the program is compiled (Rocq's primitive floats);
    - [exact]: the real numbers, the arithmetic the formulas of the
      README are written in.

    Exceptions ([throw std::runtime_error(msg)]) are the left summand of
    [result]; the payload is the message of the exception. *)

From Stdlib Require Import PrimFloat String Ascii Bool NArith ZArith List Lia.
Import ListNotations.
From Stdlib Require Import Reals Lra Psatz.

(** ** The arithmetic of [double] *)

Class Scalar (T : Type) : Type := {
  zero : T;                 (* 0.0 *)
  one : T;                  (* 1.0 *)
  hundred : T;              (* 100.0 *)
  add : T -> T -> T;
  sub : T -> T -> T;
  mul : T -> T -> T;
  div : T -> T -> T;
  ltb : T -> T -> bool;     (* x < y *)
  leb : T -> T -> bool      (* x <= y *)
}.

Declare Scope scalar_scope.
Delimit Scope scalar_scope with sc.
Infix "+" := add : scalar_scope.
Infix "-" := sub : scalar_scope.
Infix "*" := mul : scalar_scope.
Infix "/" := div : scalar_scope.
Infix "<?" := ltb (at level 70, no associativity) : scalar_scope.
Infix "<=?" := leb (at level 70, no associativity) : scalar_scope.

(** [double] as compiled: binary64 with the IEEE comparisons (every
    comparison with a NaN is false). *)
#[export] Instance binary64 : Scalar float := {
  zero := 0%float;
  one := 1%float;
  hundred := 100%float;
  add := PrimFloat.add;
  sub := PrimFloat.sub;
  mul := PrimFloat.mul;
  div := PrimFloat.div;
  ltb := PrimFloat.ltb;
  leb := PrimFloat.leb
}.

Definition Rltb (x y : R) : bool := if Rlt_dec x y then true else false.
Definition Rleb (x y : R) : bool := if Rle_dec x y then true else false.

(** [double] idealised: exact real arithmetic. *)
#[export] Instance exact : Scalar R := {
  zero := 0%R;
  one := 1%R;
  hundred := 100%R;
  add := Rplus;
  sub := Rminus;
  mul := Rmult;
  div := Rdiv;
  ltb := Rltb;
  leb := Rleb
}.

(** ** Strings

    [std::string] is a [string] of 8-bit characters.  [std::toupper] is
    taken in the "C" locale (the program never calls [setlocale]): the
    letters a..z (97..122) lose 32, every other character is kept. *)

Definition toupper (c : ascii) : ascii :=
  let n := N_of_ascii c in
  if (97 <=? n)%N && (n <=? 122)%N then ascii_of_N (n - 32) else c.

(** [for (auto& c : direction) c = (char)std::toupper((unsigned char)c);] *)
Fixpoint uppercase (s : string) : string :=
  match s with
  | EmptyString => EmptyString
  | String c s' => String (toupper c) (uppercase s')
  end.


(** ** Exceptions *)

Definition result (A : Type) : Type := (string + A)%type.

Definition throw {A : Type} (msg : string) : result A := inl msg.
Definition ret {A : Type} (a : A) : result A := inr a.
Definition bind {A B : Type} (m : result A) (k : A -> result B) : result B :=
  match m with
  | inl msg => inl msg
  | inr a => k a
  end.

Notation "x <- m ;; k" := (bind m (fun x => k))
  (at level 61, m at next level, right associativity).
Notation "m ;; k" := (bind m (fun _ => k))
  (at level 61, right associativity).

(** [static void require(bool cond, const std::string& msg)] *)
Definition require (cond : bool) (msg : string) : result unit :=
  if negb cond then throw msg else ret tt.

(** The messages of the program, as written in the source. *)
Definition msg_amountIn : string := "amountIn must be > 0".
Definition msg_reserves : string := "reserves must be > 0".
Definition msg_fee : string := "fee must be in [0, 1)".
Definition msg_reserveAB : string := "reserveA and reserveB must be > 0".
Definition msg_direction : string := "direction must be A2B or B2A".
Definition msg_drain : string :=
  "amountOut would drain the pool (invalid trade)".

(** ** The swap engine *)

Record SwapResult (T : Type) : Type := mkSwapResult {
  amountOut : T;
  newReserveA : T;
  newReserveB : T;
  effectivePrice : T;
  slippagePercent : T
}.

Arguments mkSwapResult {T} _ _ _ _ _.
Arguments amountOut {T} _.
Arguments newReserveA {T} _.
Arguments newReserveB {T} _.
Arguments effectivePrice {T} _.
Arguments slippagePercent {T} _.

Section Engine.

Context {T : Type} {S : Scalar T}.
Local Open Scope scalar_scope.

(** [static double getAmountOut(double amountIn, double reserveIn,
                                double reserveOut, double fee)] *)
Definition getAmountOut (amountIn reserveIn reserveOut fee : T) : result T :=
  require (zero <? amountIn) msg_amountIn ;;
  require ((zero <? reserveIn) && (zero <? reserveOut)) msg_reserves ;;
  require ((zero <=? fee) && (fee <? one)) msg_fee ;;
  let amountInWithFee := amountIn * (one - fee) in
  ret ((amountInWithFee * reserveOut) / (reserveIn + amountInWithFee)).

(** [static SwapResult simulateSwap(double reserveA, double reserveB,
       double fee, const std::string& directionRaw, double amountIn)] *)
Definition simulateSwap (reserveA reserveB fee : T) (directionRaw : string)
    (amountIn : T) : result (SwapResult T) :=
  require ((zero <? reserveA) && (zero <? reserveB)) msg_reserveAB ;;
  let direction := uppercase directionRaw in
  require ((direction =? "A2B")%string || (direction =? "B2A")%string)
    msg_direction ;;
  if (direction =? "A2B")%string then
    let P0 := reserveB / reserveA in
    out <- getAmountOut amountIn reserveA reserveB fee ;;
    require (out <? reserveB) msg_drain ;;
    let effectivePrice := out / amountIn in
    ret {| amountOut := out;
           newReserveA := reserveA + amountIn;
           newReserveB := reserveB - out;
           effectivePrice := effectivePrice;
           slippagePercent := (P0 - effectivePrice) / P0 * hundred |}
  else
    let P0 := reserveA / reserveB in
    out <- getAmountOut amountIn reserveB reserveA fee ;;
    require (out <? reserveA) msg_drain ;;
    let effectivePrice := out / amountIn in
    ret {| amountOut := out;
           newReserveA := reserveA - out;
           newReserveB := reserveB + amountIn;
           effectivePrice := effectivePrice;
           slippagePercent := (P0 - effectivePrice) / P0 * hundred |}.

(** The preconditions of [getAmountOut], as the three [require] lines
    test them. *)
Definition valid_quote (amountIn reserveIn reserveOut fee : T) : bool :=
  (zero <? amountIn) && ((zero <? reserveIn) && (zero <? reserveOut))
  && ((zero <=? fee) && (fee <? one)).

(** The preconditions of [simulateSwap]: its own two [require] lines and
    the two of [getAmountOut] that look at [amountIn] and [fee]. *)
Definition valid_swap (reserveA reserveB fee : T) (directionRaw : string)
    (amountIn : T) : bool :=
  ((zero <? reserveA) && (zero <? reserveB))
  && ((uppercase directionRaw =? "A2B")%string
      || (uppercase directionRaw =? "B2A")%string)
  && (zero <? amountIn)
  && ((zero <=? fee) && (fee <? one)).

End Engine.

Arguments getAmountOut {T} S amountIn reserveIn reserveOut fee.
Arguments simulateSwap {T} S reserveA reserveB fee directionRaw amountIn.
Arguments valid_quote {T} S amountIn reserveIn reserveOut fee.
Arguments valid_swap {T} S reserveA reserveB fee directionRaw amountIn.



(** The 0.3% fee of [runDemo]: the double nearest to 0.003. *)
Definition fee_demo : float := 0x1.89374bc6a7efap-9%float.

(** ** The command line

    [args] is [argv[1..]] as a list of strings. *)

(** [static bool hasFlag(const std::vector<std::string>& args,
                         const std::string& flag)] *)
Fixpoint hasFlag (args : list string) (flag : string) : bool :=
  match args with
  | [] => false
  | a :: args' => if (a =? flag)%string then true else hasFlag args' flag
  end.

(** The loop of [getArg] from index [i] on, with [n] iterations left:
    [if (args[i] == key) return args[i + 1];] and after the loop
    [return "";]. *)
Fixpoint getArg_loop (n i : nat) (args : list string) (key : string) : string :=
  match n with
  | O => EmptyString
  | Datatypes.S n' =>
      if (nth i args EmptyString =? key)%string
      then nth (i + 1) args EmptyString
      else getArg_loop n' (i + 1) args key
  end.

(** [static std::string getArg(const std::vector<std::string>& args,
                               const std::string& key)]:
    [for (size_t i = 0; i + 1 < args.size(); ++i)] runs
    [args.size() - 1] times, and not at all on an empty vector. *)
Definition getArg (args : list string) (key : string) : string :=
  getArg_loop (List.length args - 1) 0 args key.

Section Parsing.

Context {T : Type}.

(** [std::stod(s, &idx)]: the value and the number of characters
    consumed, or the exception it throws ([std::invalid_argument],
    [std::out_of_range]).  The standard library's parser is a parameter
    of the model. *)
Variable stod : string -> result (T * nat).

(** [static double toDouble(const std::string& s, const std::string& name)] *)
Definition toDouble (s name : string) : result T :=
  require (negb (s =? "")%string) ("Missing value for " ++ name) ;;
  p <- stod s ;;
  require (snd p =? String.length s)%nat
    ("Invalid number for " ++ name ++ ": " ++ s) ;;
  ret (fst p).

End Parsing.

(** ** Output streams

    What [operator<<] does to [std::cout] and [std::cerr], as far as the
    program uses it: the text written so far, the two sticky format
    flags the program sets ([std::left] / [std::right], [std::fixed]),
    the sticky precision, and the field width, which every inserted
    string or number uses and resets to 0. *)

Inductive adjustfield : Type := adjust_left | adjust_right.

Record ostream : Type := mkOstream {
  text : string;
  adjust : adjustfield;
  fixed : bool;
  precision : nat;
  width : nat
}.

(** A stream at program start: right-adjusted, not [fixed], precision 6,
    width 0. *)
Definition fresh : ostream :=
  {| text := ""; adjust := adjust_right; fixed := false;
     precision := 6; width := 0 |}.

(** [std::string(n, c)] *)
Fixpoint fill (n : nat) (c : ascii) : string :=
  match n with
  | O => EmptyString
  | Datatypes.S n' => String c (fill n' c)
  end.

Definition nl : string := String (ascii_of_nat 10) EmptyString.

(** Padding to the field width with the fill character ' ': after the
    text under [std::left], before it otherwise; a text as long as the
    width or longer is written as it is. *)
Definition pad (a : adjustfield) (w : nat) (s : string) : string :=
  let gap := fill (w - String.length s) " "%char in
  match a with
  | adjust_left => s ++ gap
  | adjust_right => gap ++ s
  end.

(** [os << s] for a string or a string literal. *)
Definition put (s : string) (o : ostream) : ostream :=
  {| text := text o ++ pad (adjust o) (width o) s;
     adjust := adjust o; fixed := fixed o; precision := precision o;
     width := 0 |}.

(** [os << std::left], [os << std::right], [os << std::fixed],
    [os << std::setprecision(n)], [os << std::setw(n)]. *)
Definition set_left (o : ostream) : ostream :=
  {| text := text o; adjust := adjust_left; fixed := fixed o;
     precision := precision o; width := width o |}.
Definition set_right (o : ostream) : ostream :=
  {| text := text o; adjust := adjust_right; fixed := fixed o;
     precision := precision o; width := width o |}.
Definition set_fixed (o : ostream) : ostream :=
  {| text := text o; adjust := adjust o; fixed := true;
     precision := precision o; width := width o |}.
Definition setprecision (n : nat) (o : ostream) : ostream :=
  {| text := text o; adjust := adjust o; fixed := fixed o;
     precision := n; width := width o |}.
Definition setw (n : nat) (o : ostream) : ostream :=
  {| text := text o; adjust := adjust o; fixed := fixed o;
     precision := precision o; width := n |}.

Notation "o |> f" := (f o) (at level 45, left associativity, only parsing).

(** Scenario for demo (name + direction + amountIn) *)
Record Scenario (T : Type) : Type := mkScenario {
  name : string;
  direction : string;
  amountIn : T
}.

Arguments mkScenario {T} _ _ _.
Arguments name {T} _.
Arguments direction {T} _.
Arguments amountIn {T} _.

(** The [double] literals of [runDemo]. *)
Class DemoLiterals (T : Type) : Type := {
  lit_10000 : T;            (* 10000.0 *)
  lit_0_003 : T;            (* 0.003 *)
  lit_0_01 : T;             (* 0.01 *)
  lit_0_10 : T;             (* 0.10 *)
  lit_0_40 : T              (* 0.40 *)
}.

(** Each literal is the nearest double. *)
#[export] Instance binary64_literals : DemoLiterals float := {
  lit_10000 := 10000%float;
  lit_0_003 := fee_demo;
  lit_0_01 := 0x1.47ae147ae147bp-7%float;
  lit_0_10 := 0x1.999999999999ap-4%float;
  lit_0_40 := 0x1.999999999999ap-2%float
}.

Section Program.

Context {T : Type} (S : Scalar T) (L : DemoLiterals T).
Local Open Scope string_scope.

(** [os << x] for a [double] writes [show f p x] padded to the width,
    where [f] and [p] are the stream's [fixed] flag and precision.  The
    conversion of a [double] to decimal digits is a parameter of the
    model. *)
Variable show : bool -> nat -> T -> string.

Variable stod : string -> result (T * nat).

Definition put_double (x : T) (o : ostream) : ostream :=
  put (show (fixed o) (precision o) x) o.

(** [static void printHeader()] *)
Definition printHeader (o : ostream) : ostream :=
  o |> set_left
    |> setw 10 |> put "Scenario"
    |> setw 6 |> put "Dir"
    |> set_right
    |> setw 12 |> put "amountIn"
    |> setw 14 |> put "amountOut"
    |> setw 14 |> put "newResA"
    |> setw 14 |> put "newResB"
    |> setw 16 |> put "effPrice"
    |> setw 14 |> put "slip(%)"
    |> put nl
    |> put (fill 100 "-"%char) |> put nl.

(** [static void printRow(const Scenario& s, const SwapResult& r)] *)
Definition printRow (s : Scenario T) (r : SwapResult T) (o : ostream)
    : ostream :=
  o |> set_left
    |> setw 10 |> put (name s)
    |> setw 6 |> put (direction s)
    |> set_right
    |> setw 12 |> set_fixed |> setprecision 6 |> put_double (amountIn s)
    |> setw 14 |> set_fixed |> setprecision 6 |> put_double (amountOut r)
    |> setw 14 |> set_fixed |> setprecision 6 |> put_double (newReserveA r)
    |> setw 14 |> set_fixed |> setprecision 6 |> put_double (newReserveB r)
    |> setw 16 |> set_fixed |> setprecision 8 |> put_double (effectivePrice r)
    |> setw 14 |> set_fixed |> setprecision 6 |> put_double (slippagePercent r)
    |> put nl.

(** [static void printUsage(const char* prog)] *)
Definition printUsage (prog : string) (o : ostream) : ostream :=
  o |> put ("Usage:" ++ nl ++ "  ")
    |> put prog
    |> put (" --reserveA <num> --reserveB <num> --fee <num> --direction A2B|B2A --amountIn <num>"
            ++ nl ++ "  ")
    |> put prog
    |> put (" --demo" ++ nl ++ nl ++ "Note:" ++ nl
            ++ "  If you run without arguments, program runs demo mode by default."
            ++ nl ++ nl ++ "Examples:" ++ nl ++ "  ")
    |> put prog
    |> put (" --demo" ++ nl ++ "  ")
    |> put prog
    |> put (" --reserveA 10000 --reserveB 10000 --fee 0.003 --direction A2B --amountIn 100"
            ++ nl).

(** The loop of [runDemo]:
    [for (const auto& s : scenarios) { auto r = simulateSwap(...);
    printRow(s, r); }].  An exception leaves the loop with the rows
    printed so far on the stream. *)
Fixpoint demo_rows (reserveA reserveB fee : T) (scenarios : list (Scenario T))
    (o : ostream) : ostream * result unit :=
  match scenarios with
  | [] => (o, inr tt)
  | s :: rest =>
      match simulateSwap S reserveA reserveB fee (direction s) (amountIn s) with
      | inl msg => (o, inl msg)
      | inr r => demo_rows reserveA reserveB fee rest (printRow s r o)
      end
  end.

(** The three scenarios of [runDemo]: 1%, 10% and 40% of [reserveA]. *)
Definition demo_scenarios : list (Scenario T) :=
  let reserveA := lit_10000 in
  let direction := "A2B" in
  [ {| name := "small"; direction := direction;
       amountIn := mul reserveA lit_0_01 |};
    {| name := "medium"; direction := direction;
       amountIn := mul reserveA lit_0_10 |};
    {| name := "large"; direction := direction;
       amountIn := mul reserveA lit_0_40 |} ].

(** [static int runDemo()] *)
Definition runDemo (o : ostream) : ostream * result Z :=
  let reserveA := lit_10000 in
  let reserveB := lit_10000 in
  let fee := lit_0_003 in
  let direction := "A2B" in
  let o := o |> put "Demo: reserveA=" |> put_double reserveA
             |> put ", reserveB=" |> put_double reserveB
             |> put ", fee=" |> put_double fee
             |> put ", direction=" |> put direction
             |> put (nl ++ nl) in
  let o := printHeader o in
  match demo_rows reserveA reserveB fee demo_scenarios o with
  | (o, inl msg) => (o, inl msg)
  | (o, inr _) =>
      (o |> put (nl ++ "Conclusions:" ++ nl)
         |> put ("- Slippage grows non-linearly with trade size (big trades move reserves a lot)." ++ nl)
         |> put ("- Effective price is always worse than spot because of fee + price impact." ++ nl)
         |> put ("- Larger pools (more liquidity) mean smaller slippage for the same amountIn." ++ nl),
       inr 0%Z)
  end.

(** Single-run mode up to the call of [simulateSwap]: the five
    arguments are read in the order of the source. *)
Definition single_run (args : list string) : result (SwapResult T) :=
  reserveA <- toDouble stod (getArg args "--reserveA") "--reserveA" ;;
  reserveB <- toDouble stod (getArg args "--reserveB") "--reserveB" ;;
  fee <- toDouble stod (getArg args "--fee") "--fee" ;;
  let dir := getArg args "--direction" in
  amountIn <- toDouble stod (getArg args "--amountIn") "--amountIn" ;;
  simulateSwap S reserveA reserveB fee dir amountIn.

(** The five lines single-run mode prints. *)
Definition print_result (r : SwapResult T) (o : ostream) : ostream :=
  o |> set_fixed |> setprecision 10
    |> put "amountOut       = " |> put_double (amountOut r) |> put nl
    |> put "new reserveA    = " |> put_double (newReserveA r) |> put nl
    |> put "new reserveB    = " |> put_double (newReserveB r) |> put nl
    |> put "effective price = " |> put_double (effectivePrice r) |> put nl
    |> put "slippage (%)    = " |> setprecision 6
    |> put_double (slippagePercent r) |> put nl.

(** The [try] block of [main]. *)
Definition main_body (prog : string) (args : list string) (o : ostream)
    : ostream * result Z :=
  match args with
  | [] => runDemo o
  | _ =>
      if hasFlag args "--help" || hasFlag args "-h"
      then (printUsage prog o, inr 0%Z)
      else if hasFlag args "--demo"
      then runDemo o
      else
        match single_run args with
        | inl msg => (o, inl msg)
        | inr r => (print_result r o, inr 0%Z)
        end
  end.

(** What a run leaves behind: the exit status and the texts on
    [std::cout] and [std::cerr]. *)
Record Run : Type := mkRun {
  status : Z;
  out : string;
  err : string
}.

(** [int main(int argc, char** argv)], with [argv] as a list:
    [argv[0]] is the program name, the rest is [args].  Both streams
    start [fresh]. *)
Definition main (argv : list string) : Run :=
  let prog := hd "" argv in
  let args := tl argv in
  match main_body prog args fresh with
  | (o, inr code) => {| status := code; out := text o; err := "" |}
  | (o, inl msg) =>
      {| status := 1%Z;
         out := text o;
         err := text (fresh |> put "Error: " |> put msg |> put nl
                            |> put ("Run with --help for usage." ++ nl)) |}
  end.

End Program.

Arguments printRow {T} show s r o.
Arguments put_double {T} show x o.
Arguments demo_rows {T} S show reserveA reserveB fee scenarios o.
Arguments demo_scenarios {T} S L.
Arguments runDemo {T} S L show o.
Arguments single_run {T} S stod args.
Arguments print_result {T} show r o.
Arguments main_body {T} S L show stod prog args o.
Arguments main {T} S L show stod argv.

(** ** Stand-ins for the two library parameters, for the examples

    [stod_demo] knows the numerals of the README's command line, reads
    "100x" as 100 followed by one unread character, and rejects every
    other string the way [std::stod] does, by throwing.  [show_demo]
    writes every number as "#". *)
Definition stod_demo (s : string) : result (float * nat) :=
  if (s =? "10000")%string then inr (10000%float, 5)
  else if (s =? "0.003")%string then inr (fee_demo, 5)
  else if (s =? "100")%string then inr (100%float, 3)
  else if (s =? "100x")%string then inr (100%float, 3)
  else inl "stod"%string.

Definition show_demo (f : bool) (p : nat) (x : float) : string := "#".

(** The custom swap of the README:
    [--reserveA 10000 --reserveB 10000 --fee 0.003 --direction A2B
     --amountIn 100]. *)
Definition readme_args : list string :=
  [ "--reserveA"; "10000"; "--reserveB"; "10000"; "--fee"; "0.003";
    "--direction"; "A2B"; "--amountIn"; "100" ]%string.

(** ** Facts that hold in every arithmetic

    Nothing in this section looks inside the operations of [Scalar]:
    every statement holds of the program as compiled (binary64) and of
    its idealisation (exact reals) alike. *)

Ltac run :=
  unfold require, bind, throw, ret; cbn [negb].

Lemma toupper_idempotent (c : ascii) : toupper (toupper c) = toupper c.
Proof.
  destruct c as [[] [] [] [] [] [] [] []]; reflexivity.
Qed.

Lemma uppercase_idempotent (s : string) : uppercase (uppercase s) = uppercase s.
Proof.
  induction s as [|c s IH]; cbn; [reflexivity|].
  now rewrite toupper_idempotent, IH.
Qed.

Section Generic.

Context {T : Type} (S : Scalar T).
Local Open Scope scalar_scope.

Lemma getAmountOut_valid (amountIn reserveIn reserveOut fee : T) :
  valid_quote S amountIn reserveIn reserveOut fee = true ->
  getAmountOut S amountIn reserveIn reserveOut fee
  = inr ((amountIn * (one - fee) * reserveOut)
         / (reserveIn + amountIn * (one - fee))).
Proof.
  unfold valid_quote, getAmountOut. run.
  intros H.
  apply andb_prop in H as [H Hf]. apply andb_prop in H as [Ha Hr].
  rewrite Ha, Hr, Hf. reflexivity.
Qed.

Lemma getAmountOut_inr (amountIn reserveIn reserveOut fee out : T) :
  getAmountOut S amountIn reserveIn reserveOut fee = inr out ->
  valid_quote S amountIn reserveIn reserveOut fee = true
  /\ out = (amountIn * (one - fee) * reserveOut)
           / (reserveIn + amountIn * (one - fee)).
Proof.
  unfold valid_quote, getAmountOut. run.
  destruct (zero <? amountIn); cbn; [|discriminate].
  destruct ((zero <? reserveIn) && (zero <? reserveOut)); cbn; [|discriminate].
  destruct ((zero <=? fee) && (fee <? one)); cbn; [|discriminate].
  intros [= <-]. split; reflexivity.
Qed.

Lemma getAmountOut_inl (amountIn reserveIn reserveOut fee : T) (msg : string) :
  getAmountOut S amountIn reserveIn reserveOut fee = inl msg ->
  (msg = msg_amountIn /\ (zero <? amountIn) = false)
  \/ (msg = msg_reserves
      /\ ((zero <? reserveIn) && (zero <? reserveOut)) = false)
  \/ (msg = msg_fee /\ ((zero <=? fee) && (fee <? one)) = false).
Proof.
  unfold getAmountOut. run.
  destruct (zero <? amountIn); cbn; [|intros [= <-]; auto].
  destruct ((zero <? reserveIn) && (zero <? reserveOut)); cbn;
    [|intros [= <-]; auto].
  destruct ((zero <=? fee) && (fee <? one)); cbn; [discriminate|].
  intros [= <-]; auto.
Qed.


(** The body of the [A2B] branch and of the [else] branch. *)
Lemma simulateSwap_A2B (reserveA reserveB fee : T) (d : string) (amountIn : T) :
  (zero <? reserveA) = true -> (zero <? reserveB) = true ->
  uppercase d = "A2B"%string ->
  simulateSwap S reserveA reserveB fee d amountIn
  = (out <- getAmountOut S amountIn reserveA reserveB fee ;;
     require (out <? reserveB) msg_drain ;;
     ret {| amountOut := out;
            newReserveA := reserveA + amountIn;
            newReserveB := reserveB - out;
            effectivePrice := out / amountIn;
            slippagePercent :=
              (reserveB / reserveA - out / amountIn)
              / (reserveB / reserveA) * hundred |}).
Proof.
  intros HA HB Hd. unfold simulateSwap. rewrite HA, HB, Hd. reflexivity.
Qed.

Lemma simulateSwap_B2A (reserveA reserveB fee : T) (d : string) (amountIn : T) :
  (zero <? reserveA) = true -> (zero <? reserveB) = true ->
  uppercase d = "B2A"%string ->
  simulateSwap S reserveA reserveB fee d amountIn
  = (out <- getAmountOut S amountIn reserveB reserveA fee ;;
     require (out <? reserveA) msg_drain ;;
     ret {| amountOut := out;
            newReserveA := reserveA - out;
            newReserveB := reserveB + amountIn;
            effectivePrice := out / amountIn;
            slippagePercent :=
              (reserveA / reserveB - out / amountIn)
              / (reserveA / reserveB) * hundred |}).
Proof.
  intros HA HB Hd. unfold simulateSwap. rewrite HA, HB, Hd. reflexivity.
Qed.

Lemma simulateSwap_bad_reserves (reserveA reserveB fee : T) (d : string)
    (amountIn : T) :
  ((zero <? reserveA) && (zero <? reserveB)) = false ->
  simulateSwap S reserveA reserveB fee d amountIn = inl msg_reserveAB.
Proof.
  intros H. unfold simulateSwap. rewrite H. reflexivity.
Qed.

Lemma simulateSwap_bad_direction (reserveA reserveB fee : T) (d : string)
    (amountIn : T) :
  ((zero <? reserveA) && (zero <? reserveB)) = true ->
  uppercase d <> "A2B"%string -> uppercase d <> "B2A"%string ->
  simulateSwap S reserveA reserveB fee d amountIn = inl msg_direction.
Proof.
  intros H HA HB. unfold simulateSwap. rewrite H.
  apply String.eqb_neq in HA, HB. rewrite HA, HB. reflexivity.
Qed.

Lemma direction_cases (d : string) :
  uppercase d = "A2B"%string \/ uppercase d = "B2A"%string
  \/ (uppercase d <> "A2B"%string /\ uppercase d <> "B2A"%string).
Proof.
  destruct (String.eqb_spec (uppercase d) "A2B"); auto.
  destruct (String.eqb_spec (uppercase d) "B2A"); auto.
Qed.

(** What a successful call went through. *)
Lemma simulateSwap_inr (reserveA reserveB fee : T) (d : string) (amountIn : T)
    (r : SwapResult T) :
  simulateSwap S reserveA reserveB fee d amountIn = inr r ->
  (zero <? reserveA) = true /\ (zero <? reserveB) = true /\
  ((uppercase d = "A2B"%string /\
    exists out, getAmountOut S amountIn reserveA reserveB fee = inr out
      /\ (out <? reserveB) = true
      /\ r = {| amountOut := out;
                newReserveA := reserveA + amountIn;
                newReserveB := reserveB - out;
                effectivePrice := out / amountIn;
                slippagePercent :=
                  (reserveB / reserveA - out / amountIn)
                  / (reserveB / reserveA) * hundred |})
   \/
   (uppercase d = "B2A"%string /\
    exists out, getAmountOut S amountIn reserveB reserveA fee = inr out
      /\ (out <? reserveA) = true
      /\ r = {| amountOut := out;
                newReserveA := reserveA - out;
                newReserveB := reserveB + amountIn;
                effectivePrice := out / amountIn;
                slippagePercent :=
                  (reserveA / reserveB - out / amountIn)
                  / (reserveA / reserveB) * hundred |})).
Proof.
  intros H.
  destruct ((zero <? reserveA) && (zero <? reserveB)) eqn:HAB;
    [|rewrite simulateSwap_bad_reserves in H by assumption; discriminate].
  pose proof HAB as HAB'. apply andb_prop in HAB' as [HA HB].
  split; [assumption|]. split; [assumption|].
  destruct (direction_cases d) as [Hd|[Hd|[Hd1 Hd2]]].
  - left. split; [assumption|].
    rewrite simulateSwap_A2B in H by assumption. revert H. run.
    destruct (getAmountOut S amountIn reserveA reserveB fee) as [m|out];
      [discriminate|].
    destruct (out <? reserveB) eqn:Hlt; cbn; [|discriminate].
    intros [= <-]. exists out. auto.
  - right. split; [assumption|].
    rewrite simulateSwap_B2A in H by assumption. revert H. run.
    destruct (getAmountOut S amountIn reserveB reserveA fee) as [m|out];
      [discriminate|].
    destruct (out <? reserveA) eqn:Hlt; cbn; [|discriminate].
    intros [= <-]. exists out. auto.
  - rewrite simulateSwap_bad_direction in H by assumption. discriminate.
Qed.

(** C1. On every input that passes the three checks ([amountIn > 0],
    [reserveIn > 0 && reserveOut > 0], [fee >= 0 && fee < 1]),
    [getAmountOut] returns
    [(amountIn * (1 - fee) * reserveOut) / (reserveIn + amountIn * (1 - fee))],
    evaluated in the arithmetic of the program, whichever it is. *)
Theorem quote_formula (amountIn reserveIn reserveOut fee : T) :
  (zero <? amountIn) = true ->
  (zero <? reserveIn) = true ->
  (zero <? reserveOut) = true ->
  (zero <=? fee) = true ->
  (fee <? one) = true ->
  getAmountOut S amountIn reserveIn reserveOut fee
  = inr ((amountIn * (one - fee) * reserveOut)
         / (reserveIn + amountIn * (one - fee))).
Proof.
  intros Ha Hi Ho Hf0 Hf1. apply getAmountOut_valid.
  unfold valid_quote. now rewrite Ha, Hi, Ho, Hf0, Hf1.
Qed.

(** C3. A successful [simulateSwap] took one of the two branches.  In
    the A2B branch [newReserveA = reserveA + amountIn] and
    [newReserveB = reserveB - amountOut]; in the B2A branch
    [newReserveB = reserveB + amountIn] and
    [newReserveA = reserveA - amountOut]. *)
Theorem reserves_update (reserveA reserveB fee : T) (d : string) (amountIn : T)
    (r : SwapResult T) :
  simulateSwap S reserveA reserveB fee d amountIn = inr r ->
  (uppercase d = "A2B"%string \/ uppercase d = "B2A"%string)
  /\ (uppercase d = "A2B"%string ->
      newReserveA r = reserveA + amountIn
      /\ newReserveB r = reserveB - amountOut r)
  /\ (uppercase d = "B2A"%string ->
      newReserveB r = reserveB + amountIn
      /\ newReserveA r = reserveA - amountOut r).
Proof.
  intros H. apply simulateSwap_inr in H as (_ & _ & H).
  destruct H as [[Hd (out & _ & _ & ->)]|[Hd (out & _ & _ & ->)]]; cbn.
  - split; [auto|]. split; [auto|].
    rewrite Hd. discriminate.
  - split; [auto|]. split; [|auto].
    rewrite Hd. discriminate.
Qed.





(** C9 (amended). The direction is upper-cased before it is looked at:
    a call with [d] and a call with the upper-case form of [d] end the
    same way, so "a2b" is A2B and "b2a" is B2A.  A direction whose
    upper-case form is neither "A2B" nor "B2A" makes the call fail: with
    the direction message when both reserves are > 0, and with the
    reserves message otherwise, since the reserves are checked first. *)
Theorem direction_normalized (reserveA reserveB fee : T) (d : string)
    (amountIn : T) :
  simulateSwap S reserveA reserveB fee d amountIn
  = simulateSwap S reserveA reserveB fee (uppercase d) amountIn
  /\ (uppercase d <> "A2B"%string -> uppercase d <> "B2A"%string ->
      simulateSwap S reserveA reserveB fee d amountIn
      = inl (if (zero <? reserveA) && (zero <? reserveB)
             then msg_direction else msg_reserveAB)).
Proof.
  split.
  - unfold simulateSwap. now rewrite uppercase_idempotent.
  - intros H1 H2.
    destruct ((zero <? reserveA) && (zero <? reserveB)) eqn:HAB.
    + now apply simulateSwap_bad_direction.
    + now apply simulateSwap_bad_reserves.
Qed.

End Generic.

(** The first demo scenario of [runDemo], in binary64. *)
Lemma quote_formula_witness :
  getAmountOut binary64 100%float 10000%float 10000%float fee_demo
  = inr (((100 * (1 - fee_demo)) * 10000)
         / (10000 + 100 * (1 - fee_demo)))%float.
Proof.
  apply (quote_formula binary64 100%float 10000%float 10000%float fee_demo);
    reflexivity.
Defined.

Lemma reserves_update_witness :
  exists r,
    simulateSwap binary64 10000%float 10000%float fee_demo "a2b" 100%float
    = inr r
    /\ newReserveA r = 10100%float
    /\ newReserveB r = (10000 - amountOut r)%float.
Proof.
  eexists. split; [vm_compute; reflexivity|].
  apply (reserves_update binary64 10000%float 10000%float fee_demo "a2b"
           100%float); reflexivity.
Defined.



(** C9 as stated fails at [simulateSwap(0, 10000, 0.003, "XYZ", 100)]:
    the direction is not recognised, and the message is the one of the
    reserves. *)
Lemma direction_error_masked :
  uppercase "XYZ" <> "A2B"%string
  /\ uppercase "XYZ" <> "B2A"%string
  /\ simulateSwap binary64 0%float 10000%float fee_demo "XYZ" 100%float
     = inl msg_reserveAB
  /\ simulateSwap binary64 0%float 10000%float fee_demo "XYZ" 100%float
     <> inl msg_direction.
Proof.
  split; [discriminate|]. split; [discriminate|].
  split; [reflexivity|discriminate].
Qed.

Lemma direction_normalized_witness :
  simulateSwap binary64 10000%float 10000%float fee_demo "a2b" 100%float
  = simulateSwap binary64 10000%float 10000%float fee_demo "A2B" 100%float
  /\ simulateSwap binary64 10000%float 10000%float fee_demo "XYZ" 100%float
     = inl msg_direction.
Proof.
  split.
  - exact (proj1 (direction_normalized binary64 10000%float 10000%float
                    fee_demo "a2b" 100%float)).
  - apply (proj2 (direction_normalized binary64 10000%float 10000%float
                    fee_demo "XYZ" 100%float)); discriminate.
Defined.

(** ** Exact arithmetic

    The same program read over the real numbers. *)

Section Exact.

Local Open Scope R_scope.

Lemma Rltb_true (x y : R) : Rltb x y = true <-> x < y.
Proof.
  unfold Rltb. destruct (Rlt_dec x y); split; intros; auto; discriminate.
Qed.

Lemma Rleb_true (x y : R) : Rleb x y = true <-> x <= y.
Proof.
  unfold Rleb. destruct (Rle_dec x y); split; intros; auto; discriminate.
Qed.

Lemma valid_quote_exact (amountIn reserveIn reserveOut fee : R) :
  valid_quote exact amountIn reserveIn reserveOut fee = true
  <-> 0 < amountIn /\ 0 < reserveIn /\ 0 < reserveOut /\ 0 <= fee < 1.
Proof.
  unfold valid_quote. cbn [zero one ltb leb exact].
  rewrite !andb_true_iff, !Rltb_true, Rleb_true. tauto.
Qed.

Lemma getAmountOut_exact (amountIn reserveIn reserveOut fee : R) :
  0 < amountIn -> 0 < reserveIn -> 0 < reserveOut -> 0 <= fee < 1 ->
  getAmountOut exact amountIn reserveIn reserveOut fee
  = inr ((amountIn * (1 - fee) * reserveOut)
         / (reserveIn + amountIn * (1 - fee))).
Proof.
  intros Ha Hi Ho Hf.
  apply (getAmountOut_valid exact). apply valid_quote_exact. auto.
Qed.

(** The curve [w |-> w * reserveOut / (reserveIn + w)] on [w > 0]. *)
Lemma curve_bounds (w reserveIn reserveOut : R) :
  0 < w -> 0 < reserveIn -> 0 < reserveOut ->
  0 < w * reserveOut / (reserveIn + w) < reserveOut.
Proof.
  intros Hw Hi Ho. split.
  - apply Rdiv_lt_0_compat; [apply Rmult_lt_0_compat|]; lra.
  - assert (E : reserveOut - w * reserveOut / (reserveIn + w)
                = reserveOut * reserveIn / (reserveIn + w)) by (field; lra).
    assert (0 < reserveOut * reserveIn / (reserveIn + w))
      by (apply Rdiv_lt_0_compat; [apply Rmult_lt_0_compat|]; lra).
    lra.
Qed.

Lemma curve_increasing (w1 w2 reserveIn reserveOut : R) :
  0 < w1 -> w1 < w2 -> 0 < reserveIn -> 0 < reserveOut ->
  w1 * reserveOut / (reserveIn + w1) < w2 * reserveOut / (reserveIn + w2).
Proof.
  intros H1 H12 Hi Ho.
  assert (E : w2 * reserveOut / (reserveIn + w2)
              - w1 * reserveOut / (reserveIn + w1)
              = reserveOut * reserveIn * (w2 - w1)
                / ((reserveIn + w1) * (reserveIn + w2))) by (field; lra).
  assert (0 < reserveOut * reserveIn * (w2 - w1)
              / ((reserveIn + w1) * (reserveIn + w2))).
  { apply Rdiv_lt_0_compat; repeat apply Rmult_lt_0_compat; lra. }
  lra.
Qed.

Lemma fee_scaled_pos (amountIn fee : R) :
  0 < amountIn -> 0 <= fee < 1 -> 0 < amountIn * (1 - fee).
Proof. intros Ha Hf. apply Rmult_lt_0_compat; lra. Qed.

(** A call on valid inputs returns: the drain guard lets every exact
    quote through. *)
Lemma simulateSwap_exact_A2B (reserveA reserveB fee : R) (d : string)
    (amountIn : R) :
  0 < reserveA -> 0 < reserveB -> 0 < amountIn -> 0 <= fee < 1 ->
  uppercase d = "A2B"%string ->
  let out := amountIn * (1 - fee) * reserveB
             / (reserveA + amountIn * (1 - fee)) in
  simulateSwap exact reserveA reserveB fee d amountIn
  = inr {| amountOut := out;
           newReserveA := reserveA + amountIn;
           newReserveB := reserveB - out;
           effectivePrice := out / amountIn;
           slippagePercent :=
             (reserveB / reserveA - out / amountIn)
             / (reserveB / reserveA) * 100 |}.
Proof.
  intros HA HB Hx Hf Hd out.
  rewrite simulateSwap_A2B; try assumption; try (now apply Rltb_true).
  rewrite getAmountOut_exact by assumption. run.
  cbn [ltb exact]. fold out.
  replace (Rltb out reserveB) with true; [reflexivity|].
  symmetry. apply Rltb_true.
  apply curve_bounds; auto using fee_scaled_pos.
Qed.

Lemma simulateSwap_exact_B2A (reserveA reserveB fee : R) (d : string)
    (amountIn : R) :
  0 < reserveA -> 0 < reserveB -> 0 < amountIn -> 0 <= fee < 1 ->
  uppercase d = "B2A"%string ->
  let out := amountIn * (1 - fee) * reserveA
             / (reserveB + amountIn * (1 - fee)) in
  simulateSwap exact reserveA reserveB fee d amountIn
  = inr {| amountOut := out;
           newReserveA := reserveA - out;
           newReserveB := reserveB + amountIn;
           effectivePrice := out / amountIn;
           slippagePercent :=
             (reserveA / reserveB - out / amountIn)
             / (reserveA / reserveB) * 100 |}.
Proof.
  intros HA HB Hx Hf Hd out.
  rewrite simulateSwap_B2A; try assumption; try (now apply Rltb_true).
  rewrite getAmountOut_exact by assumption. run.
  cbn [ltb exact]. fold out.
  replace (Rltb out reserveA) with true; [reflexivity|].
  symmetry. apply Rltb_true.
  apply curve_bounds; auto using fee_scaled_pos.
Qed.

(** What a successful exact call went through and what it returned. *)
Lemma simulateSwap_exact_inr (reserveA reserveB fee : R) (d : string)
    (amountIn : R) (r : SwapResult R) :
  simulateSwap exact reserveA reserveB fee d amountIn = inr r ->
  0 < reserveA /\ 0 < reserveB /\ 0 < amountIn /\ 0 <= fee < 1 /\
  ((uppercase d = "A2B"%string /\
    let out := amountIn * (1 - fee) * reserveB
               / (reserveA + amountIn * (1 - fee)) in
    r = {| amountOut := out;
           newReserveA := reserveA + amountIn;
           newReserveB := reserveB - out;
           effectivePrice := out / amountIn;
           slippagePercent :=
             (reserveB / reserveA - out / amountIn)
             / (reserveB / reserveA) * 100 |})
   \/
   (uppercase d = "B2A"%string /\
    let out := amountIn * (1 - fee) * reserveA
               / (reserveB + amountIn * (1 - fee)) in
    r = {| amountOut := out;
           newReserveA := reserveA - out;
           newReserveB := reserveB + amountIn;
           effectivePrice := out / amountIn;
           slippagePercent :=
             (reserveA / reserveB - out / amountIn)
             / (reserveA / reserveB) * 100 |})).
Proof.
  intros H. apply simulateSwap_inr in H as (HA & HB & H).
  apply Rltb_true in HA, HB.
  destruct H as [[Hd (out & Hq & _ & ->)]|[Hd (out & Hq & _ & ->)]];
    apply getAmountOut_inr in Hq as [Hv ->];
    apply valid_quote_exact in Hv as (Hx & _ & _ & Hf);
    repeat (split; [assumption|]); [left|right]; split; auto.
Qed.

(** C2 (amended). In exact arithmetic, on every valid input
    ([amountIn > 0], both reserves [> 0], [0 <= fee < 1]) [getAmountOut]
    returns, and its result is strictly between 0 and [reserveOut]. *)
Theorem quote_bounded_exact (amountIn reserveIn reserveOut fee : R) :
  0 < amountIn -> 0 < reserveIn -> 0 < reserveOut -> 0 <= fee < 1 ->
  exists out,
    getAmountOut exact amountIn reserveIn reserveOut fee = inr out
    /\ 0 < out < reserveOut.
Proof.
  intros Ha Hi Ho Hf. eexists. split.
  - now apply getAmountOut_exact.
  - apply curve_bounds; auto using fee_scaled_pos.
Qed.

(** C5 (amended). In exact arithmetic, for fixed [reserveIn > 0],
    [reserveOut > 0] and [0 <= fee < 1], [getAmountOut] is strictly
    increasing in [amountIn]: for [0 < x1 < x2] both calls return and
    the first result is strictly below the second. *)
Theorem quote_increasing_exact (reserveIn reserveOut fee x1 x2 : R) :
  0 < reserveIn -> 0 < reserveOut -> 0 <= fee < 1 ->
  0 < x1 -> x1 < x2 ->
  exists out1 out2,
    getAmountOut exact x1 reserveIn reserveOut fee = inr out1
    /\ getAmountOut exact x2 reserveIn reserveOut fee = inr out2
    /\ out1 < out2.
Proof.
  intros Hi Ho Hf H1 H12. do 2 eexists. split; [|split].
  - now apply getAmountOut_exact.
  - apply getAmountOut_exact; auto; lra.
  - apply curve_increasing; auto using fee_scaled_pos.
    apply Rmult_lt_compat_r; lra.
Qed.

(** C4 (amended). In exact arithmetic, every successful [simulateSwap]
    returns [slippagePercent = (P0 - effectivePrice) / P0 * 100], with
    [P0] the spot price of the branch taken ([reserveB / reserveA] for
    A2B, [reserveA / reserveB] for B2A), and this value is not
    negative. *)
Theorem slippage_nonneg_exact (reserveA reserveB fee : R) (d : string)
    (amountIn : R) (r : SwapResult R) :
  simulateSwap exact reserveA reserveB fee d amountIn = inr r ->
  let P0 := if (uppercase d =? "A2B")%string
            then reserveB / reserveA else reserveA / reserveB in
  slippagePercent r = (P0 - effectivePrice r) / P0 * 100
  /\ 0 <= slippagePercent r.
Proof.
  intros H.
  apply simulateSwap_exact_inr in H as (HA & HB & Hx & Hf & H).
  pose proof (fee_scaled_pos _ _ Hx Hf) as Hw.
  destruct H as [[Hd ->]|[Hd ->]]; rewrite Hd; cbn; split; try reflexivity.
  - replace ((reserveB / reserveA
              - amountIn * (1 - fee) * reserveB
                / (reserveA + amountIn * (1 - fee)) / amountIn)
             / (reserveB / reserveA) * 100)
      with (100 * (fee * reserveA + amountIn * (1 - fee))
            / (reserveA + amountIn * (1 - fee))) by (field; lra).
    apply Rlt_le, Rdiv_lt_0_compat; nra.
  - replace ((reserveA / reserveB
              - amountIn * (1 - fee) * reserveA
                / (reserveB + amountIn * (1 - fee)) / amountIn)
             / (reserveA / reserveB) * 100)
      with (100 * (fee * reserveB + amountIn * (1 - fee))
            / (reserveB + amountIn * (1 - fee))) by (field; lra).
    apply Rlt_le, Rdiv_lt_0_compat; nra.
Qed.

Lemma product_after_swap (a b x f : R) :
  0 < a -> 0 < b -> 0 < x -> 0 <= f < 1 ->
  (a + x) * (b - x * (1 - f) * b / (a + x * (1 - f)))
  = a * b + a * b * x * f / (a + x * (1 - f)).
Proof.
  intros Ha Hb Hx Hf. pose proof (fee_scaled_pos _ _ Hx Hf). field. lra.
Qed.

Lemma product_gain (a b x f : R) :
  0 < a -> 0 < b -> 0 < x -> 0 <= f < 1 ->
  0 <= a * b * x * f / (a + x * (1 - f))
  /\ (a * b * x * f / (a + x * (1 - f)) = 0 <-> f = 0).
Proof.
  intros Ha Hb Hx Hf. pose proof (fee_scaled_pos _ _ Hx Hf) as Hw.
  assert (Hab : 0 < a * b * x) by (repeat apply Rmult_lt_0_compat; lra).
  assert (Hden : 0 < / (a + x * (1 - f))) by (apply Rinv_0_lt_compat; lra).
  unfold Rdiv. split; [|split].
  - apply Rmult_le_pos; [apply Rmult_le_pos|]; lra.
  - intros E. apply Rmult_integral in E as [E|E]; [|lra].
    apply Rmult_integral in E as [E|E]; lra.
  - intros ->. ring.
Qed.

(** C10. In exact arithmetic, after every successful [simulateSwap] the
    product of the reserves has not decreased, it is unchanged exactly
    when [fee = 0], and both new reserves are strictly positive. *)
Theorem product_nondecreasing_exact (reserveA reserveB fee : R) (d : string)
    (amountIn : R) (r : SwapResult R) :
  simulateSwap exact reserveA reserveB fee d amountIn = inr r ->
  reserveA * reserveB <= newReserveA r * newReserveB r
  /\ (newReserveA r * newReserveB r = reserveA * reserveB <-> fee = 0)
  /\ 0 < newReserveA r
  /\ 0 < newReserveB r.
Proof.
  intros H.
  apply simulateSwap_exact_inr in H as (HA & HB & Hx & Hf & H).
  pose proof (fee_scaled_pos _ _ Hx Hf) as Hw.
  destruct H as [[_ ->]|[_ ->]]; cbn.
  - rewrite product_after_swap by assumption.
    destruct (product_gain _ _ _ _ HA HB Hx Hf) as [Hg Hz].
    pose proof (curve_bounds _ _ _ Hw HA HB) as [_ Hlt].
    repeat split; lra.
  - rewrite (Rmult_comm (reserveA - _)), product_after_swap by assumption.
    destruct (product_gain _ _ _ _ HB HA Hx Hf) as [Hg Hz].
    pose proof (curve_bounds _ _ _ Hw HB HA) as [_ Hlt].
    repeat split; lra.
Qed.

End Exact.

(** ** The drain guard *)

(** The guard after the quote: the call ends with the drain message
    exactly when the reserves and the direction were accepted, the quote
    returned, and the quote is not below the reserve it is paid from. *)
Lemma drain_thrown_iff {T : Type} (S : Scalar T) (reserveA reserveB fee : T)
    (d : string) (amountIn : T) :
  simulateSwap S reserveA reserveB fee d amountIn = inl msg_drain
  <-> (((zero <? reserveA) && (zero <? reserveB))%sc = true
       /\ ((uppercase d = "A2B"%string
            /\ exists out,
                 getAmountOut S amountIn reserveA reserveB fee = inr out
                 /\ (out <? reserveB)%sc = false)
           \/ (uppercase d = "B2A"%string
               /\ exists out,
                    getAmountOut S amountIn reserveB reserveA fee = inr out
                    /\ (out <? reserveA)%sc = false))).
Proof.
  split.
  - intros H.
    destruct ((zero <? reserveA) && (zero <? reserveB))%sc eqn:HAB;
      [|rewrite simulateSwap_bad_reserves in H by assumption; discriminate].
    split; [reflexivity|].
    pose proof HAB as HAB'. apply andb_prop in HAB' as [HA HB].
    destruct (direction_cases d) as [Hd|[Hd|[Hd1 Hd2]]].
    + left. split; [assumption|].
      rewrite simulateSwap_A2B in H by assumption. revert H. run.
      destruct (getAmountOut S amountIn reserveA reserveB fee) as [m|out] eqn:Hg.
      * intros [= ->]. apply getAmountOut_inl in Hg.
        destruct Hg as [[E _]|[[E _]|[E _]]]; discriminate E.
      * destruct (out <? reserveB)%sc eqn:Hlt; cbn; [discriminate|].
        intros _. exists out. auto.
    + right. split; [assumption|].
      rewrite simulateSwap_B2A in H by assumption. revert H. run.
      destruct (getAmountOut S amountIn reserveB reserveA fee) as [m|out] eqn:Hg.
      * intros [= ->]. apply getAmountOut_inl in Hg.
        destruct Hg as [[E _]|[[E _]|[E _]]]; discriminate E.
      * destruct (out <? reserveA)%sc eqn:Hlt; cbn; [discriminate|].
        intros _. exists out. auto.
    + rewrite simulateSwap_bad_direction in H by assumption. discriminate.
  - intros [HAB H]. apply andb_prop in HAB as [HA HB].
    destruct H as [[Hd (out & Hg & Hlt)]|[Hd (out & Hg & Hlt)]].
    + rewrite simulateSwap_A2B by assumption. rewrite Hg. run.
      now rewrite Hlt.
    + rewrite simulateSwap_B2A by assumption. rewrite Hg. run.
      now rewrite Hlt.
Qed.

(** C8 (amended). After the quote returns, [simulateSwap] checks
    [out < reserveOut] again and throws the drain message when the
    check fails, in every arithmetic.  In exact arithmetic no input that
    satisfies the preconditions (both reserves [> 0], [amountIn > 0],
    [0 <= fee < 1]) reaches that throw. *)
Theorem drain_unreachable_exact :
  (forall (T : Type) (S : Scalar T) (reserveA reserveB fee : T) (d : string)
          (amountIn : T),
     simulateSwap S reserveA reserveB fee d amountIn = inl msg_drain
     <-> (((zero <? reserveA) && (zero <? reserveB))%sc = true
          /\ ((uppercase d = "A2B"%string
               /\ exists out,
                    getAmountOut S amountIn reserveA reserveB fee = inr out
                    /\ (out <? reserveB)%sc = false)
              \/ (uppercase d = "B2A"%string
                  /\ exists out,
                       getAmountOut S amountIn reserveB reserveA fee = inr out
                       /\ (out <? reserveA)%sc = false))))
  /\ (forall (reserveA reserveB fee : R) (d : string) (amountIn : R),
        (0 < reserveA)%R -> (0 < reserveB)%R -> (0 < amountIn)%R ->
        (0 <= fee < 1)%R ->
        simulateSwap exact reserveA reserveB fee d amountIn <> inl msg_drain).
Proof.
  split.
  - intros. apply drain_thrown_iff.
  - intros rA rB fee d x HA HB Hx Hf.
    destruct (direction_cases d) as [Hd|[Hd|[Hd1 Hd2]]].
    + rewrite simulateSwap_exact_A2B by assumption. discriminate.
    + rewrite simulateSwap_exact_B2A by assumption. discriminate.
    + rewrite simulateSwap_bad_direction; try assumption; [discriminate|].
      apply andb_true_intro. split; now apply Rltb_true.
Qed.

(** ** The program as compiled: binary64

    Inputs that [std::stod] produces from the command line, evaluated
    with the operations of [double]. *)

Section Binary64.

Local Open Scope float_scope.

(** The three scenarios of [runDemo] (pool 10000/10000, fee 0.003, A2B,
    [amountIn] 100, 1000 and 4000): [amountOut] is 98.7158..., 906.6108...
    and 2851.0151..., [slippagePercent] 1.2841..., 9.3389... and
    28.7246..., the table of the README. *)
Example demo_small :
  simulateSwap binary64 10000 10000 fee_demo "A2B" 100
  = inr {| amountOut := 0x1.8adcfb93af9bcp+6;
           newReserveA := 10100;
           newReserveB := 0x1.356a4608d8a0dp+13;
           effectivePrice := 0x1.f96cc72370238p-1;
           slippagePercent := 0x1.48c11b141911p+0 |}.
Proof. vm_compute. reflexivity. Qed.

Example demo_medium :
  simulateSwap binary64 10000 10000 fee_demo "A2B" 1000
  = inr {| amountOut := 0x1.c54e31c54a489p+9;
           newReserveA := 11000;
           newReserveB := 0x1.1c2b1ce3ab5b7p+13;
           effectivePrice := 0x1.d02f4d96d33bfp-1;
           slippagePercent := 0x1.2ad85b1157c96p+3 |}.
Proof. vm_compute. reflexivity. Qed.

Example demo_large :
  simulateSwap binary64 10000 10000 fee_demo "A2B" 4000
  = inr {| amountOut := 0x1.64607c281dde3p+11;
           newReserveA := 14000;
           newReserveB := 0x1.becfc1ebf110ep+12;
           effectivePrice := 0x1.6cee108b622b3p-1;
           slippagePercent := 0x1.cb980c4c6d391p+4 |}.
Proof. vm_compute. reflexivity. Qed.

(** C2 as stated fails in binary64, at both ends.
    [getAmountOut(2^100, 1, 1, 0)]: [1 + 2^100] rounds to [2^100], the
    quote is [reserveOut] itself.  [getAmountOut(2^-600, 1, 2^-600, 0)]:
    the product [2^-600 * 2^-600] underflows, the quote is 0. *)
Lemma quote_bound_fails_binary64 :
  (valid_quote binary64 0x1p+100 1 1 0 = true
   /\ exists out,
        getAmountOut binary64 0x1p+100 1 1 0 = inr out
        /\ out = 1 /\ (out <? 1) = false)
  /\ (valid_quote binary64 0x1p-600 1 0x1p-600 0 = true
      /\ exists out,
           getAmountOut binary64 0x1p-600 1 0x1p-600 0 = inr out
           /\ out = 0 /\ (0 <? out) = false).
Proof.
  split; (split; [reflexivity|]); eexists;
    (split; [vm_compute; reflexivity|]); split; reflexivity.
Qed.

(** C5 as stated fails in binary64.  On the demo pool (10000/10000, fee
    0.003) two adjacent doubles just above 100 give quotes in the
    opposite order: the roundings of [amountIn * (1 - fee)], of the
    product and of the sum do not move together.  Against the pool
    [(1, 1)], [2^100 < 2^101] and both quotes are 1. *)
Lemma quote_not_increasing_binary64 :
  (valid_quote binary64 0x1.90000000000f3p+6 10000 10000 fee_demo = true
   /\ valid_quote binary64 0x1.90000000000f4p+6 10000 10000 fee_demo = true
   /\ (0x1.90000000000f3p+6 <? 0x1.90000000000f4p+6) = true
   /\ exists out1 out2,
        getAmountOut binary64 0x1.90000000000f3p+6 10000 10000 fee_demo
        = inr out1
        /\ getAmountOut binary64 0x1.90000000000f4p+6 10000 10000 fee_demo
           = inr out2
        /\ out1 = 0x1.8adcfb93afaabp+6 /\ out2 = 0x1.8adcfb93afaaap+6
        /\ (out2 <? out1) = true /\ (out1 <? out2) = false)
  /\ (valid_quote binary64 0x1p+100 1 1 0 = true
      /\ valid_quote binary64 0x1p+101 1 1 0 = true
      /\ (0x1p+100 <? 0x1p+101) = true
      /\ exists out1 out2,
           getAmountOut binary64 0x1p+100 1 1 0 = inr out1
           /\ getAmountOut binary64 0x1p+101 1 1 0 = inr out2
           /\ (out1 <? out2) = false).
Proof.
  split; repeat (split; [reflexivity|]); do 2 eexists;
    repeat (split; [vm_compute; reflexivity|]); reflexivity.
Qed.

(** C4 as stated fails in binary64:
    [simulateSwap(3, 1, 0, "A2B", 5 * 2^-70)] succeeds with
    [effectivePrice] one unit in the last place above [P0 = 1/3] as
    rounded, and a negative [slippagePercent]. *)
Lemma slippage_negative_binary64 :
  exists r,
    simulateSwap binary64 3 1 0 "A2B" 0x1.4p-68 = inr r
    /\ 1 / 3 = 0x1.5555555555555p-2
    /\ effectivePrice r = 0x1.5555555555556p-2
    /\ slippagePercent r = (-0x1.2cp-46)
    /\ (slippagePercent r <? 0) = true
    /\ (0 <=? slippagePercent r) = false.
Proof. eexists. repeat split; vm_compute; reflexivity. Qed.

(** C8 as stated fails in binary64:
    [simulateSwap(1, 1, 0, "A2B", 2^100)] passes every input check and the
    drain guard throws. *)
Lemma drain_reached_binary64 :
  valid_swap binary64 1 1 0 "A2B" 0x1p+100 = true
  /\ simulateSwap binary64 1 1 0 "A2B" 0x1p+100 = inl msg_drain.
Proof. split; vm_compute; reflexivity. Qed.

End Binary64.

(** ** Instances of the exact theorems: the demo pool of [runDemo] *)

Section ExactWitnesses.

Local Open Scope R_scope.

Lemma quote_bounded_exact_witness :
  exists out,
    getAmountOut exact 100 10000 10000 (3 / 1000) = inr out
    /\ 0 < out < 10000.
Proof.
  apply (quote_bounded_exact 100 10000 10000 (3 / 1000)); lra.
Defined.

Lemma quote_increasing_exact_witness :
  exists out1 out2,
    getAmountOut exact 100 10000 10000 (3 / 1000) = inr out1
    /\ getAmountOut exact 1000 10000 10000 (3 / 1000) = inr out2
    /\ out1 < out2.
Proof.
  apply (quote_increasing_exact 10000 10000 (3 / 1000) 100 1000); lra.
Defined.

Lemma slippage_nonneg_exact_witness :
  exists r,
    simulateSwap exact 10000 10000 (3 / 1000) "A2B" 100 = inr r
    /\ 0 <= slippagePercent r.
Proof.
  eexists. split.
  - apply simulateSwap_exact_A2B; (lra || reflexivity).
  - apply (slippage_nonneg_exact 10000 10000 (3 / 1000) "A2B" 100).
    apply simulateSwap_exact_A2B; (lra || reflexivity).
Defined.

Lemma product_nondecreasing_exact_witness :
  exists r,
    simulateSwap exact 10000 10000 (3 / 1000) "b2a" 4000 = inr r
    /\ 10000 * 10000 <= newReserveA r * newReserveB r.
Proof.
  eexists. split.
  - apply simulateSwap_exact_B2A; (lra || reflexivity).
  - apply (product_nondecreasing_exact 10000 10000 (3 / 1000) "b2a" 4000).
    apply simulateSwap_exact_B2A; (lra || reflexivity).
Defined.

Lemma drain_unreachable_exact_witness :
  simulateSwap exact 10000 10000 (3 / 1000) "A2B" 100 <> inl msg_drain.
Proof.
  apply (proj2 drain_unreachable_exact 10000 10000 (3 / 1000) "A2B"%string 100); lra.
Defined.

End ExactWitnesses.

(** ** Strings: append, length, padding *)

Section Strings.

Local Open Scope string_scope.

Lemma append_assoc (a b c : string) : (a ++ b) ++ c = a ++ (b ++ c).
Proof. induction a as [|x a IH]; cbn; [reflexivity|now rewrite IH]. Qed.

Lemma append_nil_r (a : string) : a ++ "" = a.
Proof. induction a as [|x a IH]; cbn; [reflexivity|now rewrite IH]. Qed.

Lemma length_append (a b : string) :
  String.length (a ++ b) = String.length a + String.length b.
Proof. induction a as [|x a IH]; cbn; [reflexivity|now rewrite IH]. Qed.

Lemma length_fill (n : nat) (c : ascii) : String.length (fill n c) = n.
Proof. induction n as [|n IH]; cbn; [reflexivity|now rewrite IH]. Qed.

(** [setw] is a minimum width: nothing is cut. *)
Lemma length_pad (a : adjustfield) (w : nat) (s : string) :
  String.length (pad a w s) = Nat.max w (String.length s).
Proof.
  unfold pad. destruct a; rewrite length_append, length_fill; lia.
Qed.

Lemma pad_fits (a : adjustfield) (w : nat) (s : string) :
  w <= String.length s -> pad a w s = s.
Proof.
  intros H. unfold pad. replace (w - String.length s) with 0 by lia.
  destruct a; cbn; [apply append_nil_r|reflexivity].
Qed.

End Strings.

(** ** The command line: [hasFlag], [getArg], [toDouble] *)

Section CommandLine.

Local Open Scope string_scope.

Lemma hasFlag_reflect (args : list string) (flag : string) :
  reflect (In flag args) (hasFlag args flag).
Proof.
  induction args as [|a args IH]; cbn.
  - constructor. tauto.
  - destruct (String.eqb_spec a flag) as [->|Hne].
    + constructor. now left.
    + destruct IH as [H|H]; constructor; [now right|].
      intros [E|H']; [now apply Hne|now apply H].
Qed.

Lemma hasFlag_false (args : list string) (flag : string) :
  hasFlag args flag = false <-> ~ In flag args.
Proof.
  destruct (hasFlag_reflect args flag) as [H|H]; split;
    try discriminate; try reflexivity; try tauto.
Qed.

Lemma hasFlag_true (args : list string) (flag : string) :
  In flag args -> hasFlag args flag = true.
Proof.
  intros H. destruct (hasFlag_reflect args flag) as [_|H'];
    [reflexivity|contradiction].
Qed.

(** X1. [hasFlag] answers whether the flag is one of the arguments;
    the comparison is exact (case and spaces count). *)
Theorem hasFlag_In (args : list string) (flag : string) :
  hasFlag args flag = true <-> In flag args.
Proof.
  destruct (hasFlag_reflect args flag) as [H|H]; split; intros H';
    try assumption; try reflexivity.
  - discriminate H'.
  - contradiction.
Qed.

Lemma getArg_loop_shift (n i : nat) (a : string) (args : list string)
    (key : string) :
  getArg_loop n (Datatypes.S i) (a :: args) key = getArg_loop n i args key.
Proof.
  revert i. induction n as [|n IH]; intros i; cbn [getArg_loop];
    [reflexivity|].
  replace (Datatypes.S i + 1) with (Datatypes.S (i + 1)) by lia.
  cbn [nth]. now rewrite IH.
Qed.

(** The index loop, read along the list. *)
Lemma getArg_nil (key : string) : getArg [] key = "".
Proof. reflexivity. Qed.

Lemma getArg_single (a key : string) : getArg [a] key = "".
Proof. reflexivity. Qed.

Lemma getArg_cons (a v : string) (rest : list string) (key : string) :
  getArg (a :: v :: rest) key
  = if (a =? key) then v else getArg (v :: rest) key.
Proof.
  unfold getArg. cbn [List.length Nat.sub getArg_loop nth Nat.add].
  rewrite getArg_loop_shift. now rewrite Nat.sub_0_r.
Qed.

Lemma getArg_absent (args : list string) (key : string) :
  ~ In key (removelast args) -> getArg args key = "".
Proof.
  induction args as [|a [|b rest] IH]; intros H; try reflexivity.
  rewrite getArg_cons.
  change (removelast (a :: b :: rest)) with (a :: removelast (b :: rest)) in H.
  destruct (String.eqb_spec a key) as [->|Hne].
  - contradiction H. now left.
  - apply IH. intros H'. apply H. now right.
Qed.

Lemma getArg_inv (args : list string) (key : string) :
  getArg args key <> "" ->
  exists pre post,
    args = (pre ++ key :: getArg args key :: post)%list /\ ~ In key pre.
Proof.
  induction args as [|a [|b rest] IH]; intros H;
    try (contradiction H; reflexivity).
  rewrite getArg_cons in *.
  destruct (String.eqb_spec a key) as [->|Hne].
  - exists [], rest. cbn. tauto.
  - destruct (IH H) as (pre & post & E & Hpre).
    exists (a :: pre), post. split.
    + cbn [app]. f_equal. exact E.
    + intros [E'|H']; [now apply Hne|now apply Hpre].
Qed.

(** X2. [getArg] returns the argument that follows the first occurrence
    of the key; it returns the empty string when the key does not occur
    before the last position (no arguments, key absent, or key given as
    the very last argument), and in no other case. *)
Theorem getArg_spec (args : list string) (key v : string) :
  getArg args key = v
  <-> (exists pre post, args = (pre ++ key :: v :: post)%list
                        /\ ~ In key pre)
      \/ (v = "" /\ ~ In key (removelast args)).
Proof.
  revert v. induction args as [|a [|b rest] IH]; intros v.
  - rewrite getArg_nil. split.
    + intros <-. right. cbn. tauto.
    + intros [(pre & post & E & _)|[-> _]]; [|reflexivity].
      destruct pre; discriminate E.
  - rewrite getArg_single. split.
    + intros <-. right. cbn. tauto.
    + intros [(pre & post & E & _)|[-> _]]; [|reflexivity].
      destruct pre as [|p [|q pre]]; discriminate E.
  - rewrite getArg_cons.
    change (removelast (a :: b :: rest)) with (a :: removelast (b :: rest)).
    destruct (String.eqb_spec a key) as [->|Hne].
    + split.
      * intros <-. left. exists [], rest. cbn. tauto.
      * intros [(pre & post & E & Hpre)|[_ Hno]].
        -- destruct pre as [|p pre].
           ++ cbn in E. now injection E as <- _.
           ++ cbn in E. injection E as <- _. contradiction Hpre. now left.
        -- contradiction Hno. now left.
    + rewrite IH. split.
      * intros [(pre & post & E & Hpre)|[-> Hno]].
        -- left. exists (a :: pre), post. rewrite E. split; [reflexivity|].
           intros [E'|H]; [now apply Hne|now apply Hpre].
        -- right. split; [reflexivity|].
           intros [E'|H]; [now apply Hne|now apply Hno].
      * intros [(pre & post & E & Hpre)|[-> Hno]].
        -- destruct pre as [|p pre].
           ++ cbn in E. injection E as E _. now contradiction Hne.
           ++ cbn in E. injection E as <- E. left. exists pre, post.
              split; [assumption|]. intros H. apply Hpre. now right.
        -- right. split; [reflexivity|]. intros H. apply Hno. now right.
Qed.

(** X3. A value that [getArg] returns is one of the arguments, and the
    key is then a flag of the command line: a non-empty answer is never
    made up. *)
Theorem getArg_sound (args : list string) (key : string) :
  getArg args key <> "" ->
  In (getArg args key) args /\ hasFlag args key = true.
Proof.
  intros Hne. destruct (getArg_inv args key Hne) as (pre & post & E & _).
  split.
  - rewrite E at 2. apply in_or_app. right. right. now left.
  - apply hasFlag_true. rewrite E. apply in_or_app. right. now left.
Qed.

Section ToDouble.

Context {T : Type} (stod : string -> result (T * nat)).

(** X4. [toDouble] returns [v] exactly when the string is not empty and
    [std::stod] read [v] from all of it: a number followed by anything
    [stod] left unread is not accepted. *)
Theorem toDouble_inr (s name : string) (v : T) :
  toDouble stod s name = inr v
  <-> s <> "" /\ stod s = inr (v, String.length s).
Proof.
  unfold toDouble. run.
  destruct (String.eqb_spec s "") as [->|Hne]; cbn.
  - split; [discriminate|]. intros [H _]. now contradiction H.
  - destruct (stod s) as [m|[v' idx]]; cbn.
    + split; [discriminate|]. intros [_ H]. discriminate H.
    + destruct (Nat.eqb_spec idx (String.length s)) as [->|Hidx]; cbn.
      * split; [intros [= ->]; auto|]. intros [_ [= ->]]. reflexivity.
      * split; [discriminate|]. intros [_ [= -> E]]. now contradiction Hidx.
Qed.

(** X5. The three ways [toDouble] fails, and their messages: an empty
    string is "Missing value for <name>" and [std::stod] is not asked;
    an exception of [std::stod] passes through unchanged; a number with
    unread characters behind it is
    "Invalid number for <name>: <string>". *)
Theorem toDouble_inl (s name msg : string) :
  toDouble stod s name = inl msg
  <-> (s = "" /\ msg = "Missing value for " ++ name)
      \/ (s <> "" /\ stod s = inl msg)
      \/ (s <> ""
          /\ exists v idx, stod s = inr (v, idx)
               /\ idx <> String.length s
               /\ msg = "Invalid number for " ++ name ++ ": " ++ s).
Proof.
  unfold toDouble. run.
  destruct (String.eqb_spec s "") as [->|Hne]; cbn.
  - split.
    + intros [= <-]. auto.
    + intros [[_ ->]|[[H _]|[H _]]]; [reflexivity| |]; now contradiction H.
  - destruct (stod s) as [m|[v' idx]]; cbn.
    + split.
      * intros [= <-]. auto.
      * intros [[H _]|[[_ [= ->]]|[_ (v & idx & E & _)]]];
          [contradiction|reflexivity|discriminate E].
    + destruct (Nat.eqb_spec idx (String.length s)) as [->|Hidx]; cbn.
      * split; [discriminate|].
        intros [[H _]|[[_ E]|[_ (v & idx & [= -> ->] & Hi & _)]]];
          [contradiction|discriminate E|now contradiction Hi].
      * split.
        -- intros [= <-]. right. right. split; [assumption|].
           exists v', idx. auto.
        -- intros [[H _]|[[_ E]|[_ (v & i & [= -> ->] & _ & ->)]]];
             [contradiction|discriminate E|reflexivity].
Qed.

(** X6. A flag that is missing from the command line, or that is its
    last word, is reported as "Missing value for <flag>", whatever
    [std::stod] would do. *)
Theorem toDouble_missing_flag (args : list string) (key : string) :
  ~ In key (removelast args) ->
  toDouble stod (getArg args key) key = inl ("Missing value for " ++ key).
Proof.
  intros H. rewrite (getArg_absent args key H). reflexivity.
Qed.

End ToDouble.

End CommandLine.

Section CommandLineWitnesses.

Local Open Scope string_scope.

Lemma getArg_sound_witness :
  In (getArg ["--fee"; "0.003"; "--amountIn"; "100"] "--amountIn")
     ["--fee"; "0.003"; "--amountIn"; "100"]
  /\ hasFlag ["--fee"; "0.003"; "--amountIn"; "100"] "--amountIn" = true.
Proof.
  apply (getArg_sound ["--fee"; "0.003"; "--amountIn"; "100"]
           "--amountIn").
  discriminate.
Defined.

Lemma toDouble_missing_flag_witness :
  toDouble stod_demo (getArg ["--fee"; "0.003"; "--amountIn"] "--amountIn")
    "--amountIn"
  = inl "Missing value for --amountIn".
Proof.
  apply (toDouble_missing_flag stod_demo ["--fee"; "0.003"; "--amountIn"]
           "--amountIn").
  cbn. intros [H|[H|H]]; [discriminate H|discriminate H|exact H].
Defined.

End CommandLineWitnesses.

(** ** The table: [printHeader], [printRow] *)

Section Table.

Local Open Scope string_scope.

Lemma pad_zero (a : adjustfield) (s : string) : pad a 0 s = s.
Proof. apply pad_fits. lia. Qed.

Lemma put_text (s : string) (o : ostream) :
  text (put s o) = text o ++ pad (adjust o) (width o) s.
Proof. reflexivity. Qed.

(** X7. Whatever state the stream is in (flags, precision, pending
    width), [printHeader] appends the same two lines, each 100 columns
    wide: the eight column titles, the first two left-adjusted in 10 and
    6 columns, the others right-adjusted in 12, 14, 14, 14, 16 and 14,
    and a ruler of 100 dashes.  It leaves the stream right-adjusted and
    does not touch [fixed] and the precision. *)
Theorem printHeader_text (o : ostream) :
  let titles :=
    "Scenario  Dir       amountIn     amountOut       newResA       newResB        effPrice       slip(%)" in
  printHeader o
  = {| text := text o ++ titles ++ nl ++ fill 100 "-"%char ++ nl;
       adjust := adjust_right; fixed := fixed o; precision := precision o;
       width := 0 |}
  /\ String.length titles = 100
  /\ String.length (fill 100 "-"%char) = 100.
Proof.
  intros titles. split; [|split; reflexivity].
  destruct o as [t a f p w].
  lazy [printHeader put setw set_left set_right
        text adjust fixed precision width].
  f_equal. rewrite !append_assoc. reflexivity.
Qed.

Section Row.

Context {T : Type} (show : bool -> nat -> T -> string).

(** [printRow] appends one line made of eight fields: name and
    direction left-adjusted in 10 and 6 columns, then the six numbers
    right-adjusted in 12, 14, 14, 14, 16 and 14 columns, all written
    [fixed], with precision 6 except [effectivePrice], which has 8.  The
    line does not depend on the flags and the precision the stream had
    before; afterwards the stream is right-adjusted, [fixed], with
    precision 6. *)
Lemma printRow_text (s : Scenario T) (r : SwapResult T) (o : ostream) :
  printRow show s r o
  = {| text := text o
               ++ pad adjust_left 10 (name s)
               ++ pad adjust_left 6 (direction s)
               ++ pad adjust_right 12 (show true 6 (amountIn s))
               ++ pad adjust_right 14 (show true 6 (amountOut r))
               ++ pad adjust_right 14 (show true 6 (newReserveA r))
               ++ pad adjust_right 14 (show true 6 (newReserveB r))
               ++ pad adjust_right 16 (show true 8 (effectivePrice r))
               ++ pad adjust_right 14 (show true 6 (slippagePercent r))
               ++ nl;
       adjust := adjust_right; fixed := true; precision := 6; width := 0 |}.
Proof.
  destruct o as [t a f p w].
  lazy [printRow put_double put setw setprecision set_fixed
        set_left set_right text adjust fixed precision width].
  f_equal. rewrite pad_zero, !append_assoc. reflexivity.
Qed.

(** X8. A row is never cut: it is at least 100 columns wide, the width
    of the header, and exactly 100 when the name has at most 10
    characters, the direction at most 6, and every number fits its
    column. *)
Theorem printRow_width (s : Scenario T) (r : SwapResult T) (o : ostream) :
  let len := String.length in
  let columns :=
    Nat.max 10 (len (name s)) + Nat.max 6 (len (direction s))
    + Nat.max 12 (len (show true 6 (amountIn s)))
    + Nat.max 14 (len (show true 6 (amountOut r)))
    + Nat.max 14 (len (show true 6 (newReserveA r)))
    + Nat.max 14 (len (show true 6 (newReserveB r)))
    + Nat.max 16 (len (show true 8 (effectivePrice r)))
    + Nat.max 14 (len (show true 6 (slippagePercent r))) in
  len (text (printRow show s r o)) = len (text o) + columns + 1
  /\ 100 <= columns
  /\ (len (name s) <= 10 -> len (direction s) <= 6 ->
      len (show true 6 (amountIn s)) <= 12 ->
      len (show true 6 (amountOut r)) <= 14 ->
      len (show true 6 (newReserveA r)) <= 14 ->
      len (show true 6 (newReserveB r)) <= 14 ->
      len (show true 8 (effectivePrice r)) <= 16 ->
      len (show true 6 (slippagePercent r)) <= 14 ->
      columns = 100).
Proof.
  intros len columns. subst len columns. rewrite printRow_text.
  cbn [text]. rewrite !length_append, !length_pad.
  change (String.length nl) with 1.
  split; [lia|]. split; lia.
Qed.

End Row.

End Table.

(** ** The program: [runDemo], [main] *)

Section ProgramFacts.

Context {T : Type} (S : Scalar T) (L : DemoLiterals T).
Context (show : bool -> nat -> T -> string).
Context (stod : string -> result (T * nat)).

Local Open Scope string_scope.

Lemma error_text (msg : string) :
  text (fresh |> put "Error: " |> put msg |> put nl
              |> put ("Run with --help for usage." ++ nl))
  = "Error: " ++ msg ++ nl ++ "Run with --help for usage." ++ nl.
Proof.
  lazy [put fresh text adjust fixed precision width].
  rewrite !pad_zero, !append_assoc. reflexivity.
Qed.

Lemma runDemo_status (o o' : ostream) (code : Z) :
  runDemo S L show o = (o', inr code) -> code = 0%Z.
Proof.
  unfold runDemo. cbv zeta.
  match goal with
  | |- context [demo_rows ?a ?b ?c ?d ?e ?f ?g] =>
      destruct (demo_rows a b c d e f g) as [o1 [m|u]]
  end; intros [= _ E]; congruence.
Qed.

(** The three modes of [main]. *)
Lemma main_body_help (prog : string) (args : list string) (o : ostream) :
  args <> [] -> In "--help" args \/ In "-h" args ->
  main_body S L show stod prog args o = (printUsage prog o, inr 0%Z).
Proof.
  intros Hne H. destruct args as [|a args]; [contradiction|].
  unfold main_body.
  replace (hasFlag (a :: args) "--help" || hasFlag (a :: args) "-h")
    with true; [reflexivity|].
  symmetry. apply orb_true_iff.
  destruct H as [H|H]; [left|right]; now apply hasFlag_true.
Qed.

Lemma main_body_demo (prog : string) (args : list string) (o : ostream) :
  args = [] \/ (~ In "--help" args /\ ~ In "-h" args /\ In "--demo" args) ->
  main_body S L show stod prog args o = runDemo S L show o.
Proof.
  intros [->|(H1 & H2 & H3)]; [reflexivity|].
  destruct args as [|a args]; [reflexivity|]. unfold main_body.
  apply hasFlag_false in H1, H2. apply hasFlag_true in H3.
  now rewrite H1, H2, H3.
Qed.

Lemma main_body_single (prog : string) (args : list string) (o : ostream) :
  args <> [] ->
  ~ In "--help" args -> ~ In "-h" args -> ~ In "--demo" args ->
  main_body S L show stod prog args o
  = match single_run S stod args with
    | inl msg => (o, inl msg)
    | inr r => (print_result show r o, inr 0%Z)
    end.
Proof.
  intros Hne H1 H2 H3. destruct args as [|a args]; [contradiction|].
  unfold main_body. apply hasFlag_false in H1, H2, H3.
  now rewrite H1, H2, H3.
Qed.

(** X9. [--help] or [-h] anywhere on a non-empty command line wins:
    [main] prints the usage text for the program name and exits with
    0, whatever else is on the line ([--demo], numbers that do not
    parse, a swap that would be refused). *)
Theorem main_help (prog : string) (args : list string) :
  args <> [] -> In "--help" args \/ In "-h" args ->
  main S L show stod (prog :: args)
  = {| status := 0; out := text (printUsage prog fresh); err := "" |}.
Proof.
  intros Hne H. unfold main. cbn [hd tl].
  now rewrite main_body_help.
Qed.

(** X10. [main] ends in one of two ways: with status 0 and nothing on
    [std::cerr], or with status 1 and, on [std::cerr], the line
    "Error: <message of the exception>" followed by the line
    "Run with --help for usage.". *)
Theorem main_status (argv : list string) :
  let run := main S L show stod argv in
  (status run = 0%Z /\ err run = "")
  \/ (status run = 1%Z
      /\ exists msg,
           err run = "Error: " ++ msg ++ nl
                     ++ "Run with --help for usage." ++ nl).
Proof.
  unfold main.
  destruct (main_body S L show stod (hd "" argv) (tl argv) fresh)
    as [o [msg|code]] eqn:E; cbn [status err].
  - right. split; [reflexivity|]. exists msg. apply error_text.
  - left. split; [|reflexivity].
    unfold main_body in E. destruct (tl argv) as [|a args].
    + now apply runDemo_status in E.
    + destruct (hasFlag (a :: args) "--help" || hasFlag (a :: args) "-h").
      { now injection E as _ <-. }
      destruct (hasFlag (a :: args) "--demo").
      { now apply runDemo_status in E. }
      destruct (single_run S stod (a :: args)); [discriminate E|].
      now injection E as _ <-.
Qed.

(** X11. Single-run mode is all or nothing: when the command line has
    arguments and none of them is [--help], [-h] or [--demo], a run
    that exits with 1 has written nothing to [std::cout]. *)
Theorem main_single_run_silent (prog : string) (args : list string) :
  args <> [] ->
  ~ In "--help" args -> ~ In "-h" args -> ~ In "--demo" args ->
  status (main S L show stod (prog :: args)) = 1%Z ->
  out (main S L show stod (prog :: args)) = "".
Proof.
  intros Hne H1 H2 H3. unfold main. cbn [hd tl].
  rewrite main_body_single by assumption.
  destruct (single_run S stod args); cbn [status out]; [reflexivity|].
  discriminate.
Qed.

(** X12. In single-run mode, a command line without a value for
    [--reserveA] (flag absent, or last word of the line) ends with
    status 1, nothing on [std::cout] and
    "Error: Missing value for --reserveA" on [std::cerr], whatever the
    other arguments are. *)
Theorem main_missing_reserveA (prog : string) (args : list string) :
  args <> [] ->
  ~ In "--help" args -> ~ In "-h" args -> ~ In "--demo" args ->
  ~ In "--reserveA" (removelast args) ->
  main S L show stod (prog :: args)
  = {| status := 1;
       out := "";
       err := "Error: Missing value for --reserveA" ++ nl
              ++ "Run with --help for usage." ++ nl |}.
Proof.
  intros Hne H1 H2 H3 Hmiss. unfold main. cbn [hd tl].
  rewrite main_body_single by assumption.
  replace (single_run S stod args)
    with (@inl string (SwapResult T) "Missing value for --reserveA");
    [cbn [status out err]; now rewrite error_text|].
  unfold single_run. now rewrite (getArg_absent args "--reserveA" Hmiss).
Qed.

(** X13. The four numbers are read in the order [--reserveA],
    [--reserveB], [--fee], [--amountIn], and the first one that
    [toDouble] refuses ends the run with its message: [simulateSwap] is
    not called, so no check of the engine (reserves, direction, fee
    range) can be reported before a parse error. *)
Theorem main_first_parse_error (prog : string) (args : list string)
    (pre post : list string) (flag msg : string) :
  args <> [] ->
  ~ In "--help" args -> ~ In "-h" args -> ~ In "--demo" args ->
  ["--reserveA"; "--reserveB"; "--fee"; "--amountIn"]
  = (pre ++ flag :: post)%list ->
  (forall f, In f pre -> exists v, toDouble stod (getArg args f) f = inr v) ->
  toDouble stod (getArg args flag) flag = inl msg ->
  main S L show stod (prog :: args)
  = {| status := 1;
       out := "";
       err := "Error: " ++ msg ++ nl ++ "Run with --help for usage." ++ nl |}.
Proof.
  intros Hne H1 H2 H3 Hflags Hpre Hfail. unfold main. cbn [hd tl].
  rewrite main_body_single by assumption.
  replace (single_run S stod args) with (@inl string (SwapResult T) msg);
    [cbn [status out err]; now rewrite error_text|].
  symmetry. unfold single_run.
  destruct pre as [|p1 [|p2 [|p3 [|p4 pre]]]]; cbn in Hflags.
  - injection Hflags as <- _. now rewrite Hfail.
  - injection Hflags as <- <- _.
    destruct (Hpre "--reserveA") as [v1 ->]; [cbn; auto|].
    cbn [bind]. now rewrite Hfail.
  - injection Hflags as <- <- <- _.
    destruct (Hpre "--reserveA") as [v1 ->]; [cbn; auto|].
    destruct (Hpre "--reserveB") as [v2 ->]; [cbn; auto|].
    cbn [bind]. now rewrite Hfail.
  - injection Hflags as <- <- <- <- _.
    destruct (Hpre "--reserveA") as [v1 ->]; [cbn; auto|].
    destruct (Hpre "--reserveB") as [v2 ->]; [cbn; auto|].
    destruct (Hpre "--fee") as [v3 ->]; [cbn; auto|].
    cbn [bind]. now rewrite Hfail.
  - injection Hflags as _ _ _ _ E. destruct pre; discriminate E.
Qed.

(** X14. A command line whose four numbers parse, with both reserves
    [> 0], but without a value for [--direction], is refused by the
    engine: [getArg] hands the empty string to [simulateSwap], and the
    run ends with status 1 and "Error: direction must be A2B or B2A". *)
Theorem main_missing_direction (prog : string) (args : list string)
    (reserveA reserveB fee amountIn : T) :
  args <> [] ->
  ~ In "--help" args -> ~ In "-h" args -> ~ In "--demo" args ->
  toDouble stod (getArg args "--reserveA") "--reserveA" = inr reserveA ->
  toDouble stod (getArg args "--reserveB") "--reserveB" = inr reserveB ->
  toDouble stod (getArg args "--fee") "--fee" = inr fee ->
  toDouble stod (getArg args "--amountIn") "--amountIn" = inr amountIn ->
  ltb zero reserveA = true -> ltb zero reserveB = true ->
  ~ In "--direction" (removelast args) ->
  main S L show stod (prog :: args)
  = {| status := 1;
       out := "";
       err := "Error: direction must be A2B or B2A" ++ nl
              ++ "Run with --help for usage." ++ nl |}.
Proof.
  intros Hne H1 H2 H3 EA EB Ef Ex HA HB Hmiss. unfold main. cbn [hd tl].
  rewrite main_body_single by assumption.
  unfold single_run. rewrite EA, EB, Ef, Ex. cbn [bind].
  rewrite (getArg_absent args "--direction" Hmiss), simulateSwap_bad_direction;
    [|now rewrite HA, HB|discriminate|discriminate].
  cbn [status out err]. now rewrite error_text.
Qed.

Lemma print_result_text (r : SwapResult T) (o : ostream) :
  width o = 0 ->
  text (print_result show r o)
  = text o
    ++ "amountOut       = " ++ show true 10 (amountOut r) ++ nl
    ++ "new reserveA    = " ++ show true 10 (newReserveA r) ++ nl
    ++ "new reserveB    = " ++ show true 10 (newReserveB r) ++ nl
    ++ "effective price = " ++ show true 10 (effectivePrice r) ++ nl
    ++ "slippage (%)    = " ++ show true 6 (slippagePercent r) ++ nl.
Proof.
  destruct o as [t a f p w]. cbn [width]. intros ->.
  lazy [print_result put_double put setprecision set_fixed
        text adjust fixed precision width].
  rewrite !pad_zero, !append_assoc. reflexivity.
Qed.

(** X15. In single-run mode, when the four numbers parse and
    [simulateSwap] accepts them with the direction as given, the run
    ends with status 0, nothing on [std::cerr], and five lines on
    [std::cout]: [amountOut], the two new reserves and the effective
    price written [fixed] with 10 decimals, the slippage with 6. *)
Theorem main_single_run_success (prog : string) (args : list string)
    (reserveA reserveB fee amountIn : T) (r : SwapResult T) :
  args <> [] ->
  ~ In "--help" args -> ~ In "-h" args -> ~ In "--demo" args ->
  toDouble stod (getArg args "--reserveA") "--reserveA" = inr reserveA ->
  toDouble stod (getArg args "--reserveB") "--reserveB" = inr reserveB ->
  toDouble stod (getArg args "--fee") "--fee" = inr fee ->
  toDouble stod (getArg args "--amountIn") "--amountIn" = inr amountIn ->
  simulateSwap S reserveA reserveB fee (getArg args "--direction") amountIn
  = inr r ->
  main S L show stod (prog :: args)
  = {| status := 0;
       out := "amountOut       = " ++ show true 10 (amountOut r) ++ nl
              ++ "new reserveA    = " ++ show true 10 (newReserveA r) ++ nl
              ++ "new reserveB    = " ++ show true 10 (newReserveB r) ++ nl
              ++ "effective price = " ++ show true 10 (effectivePrice r) ++ nl
              ++ "slippage (%)    = " ++ show true 6 (slippagePercent r) ++ nl;
       err := "" |}.
Proof.
  intros Hne H1 H2 H3 EA EB Ef Ex Er. unfold main. cbn [hd tl].
  rewrite main_body_single by assumption.
  unfold single_run. rewrite EA, EB, Ef, Ex. cbn [bind]. rewrite Er.
  now rewrite print_result_text.
Qed.

End ProgramFacts.

(** ** Demo mode as compiled *)

Section DemoBinary64.

Context (show : bool -> nat -> float -> string).
Context (stod : string -> result (float * nat)).

Local Open Scope string_scope.

Lemma demo_rows_binary64 (o : ostream) :
  exists o',
    demo_rows binary64 show lit_10000 lit_10000 lit_0_003
      (demo_scenarios binary64 binary64_literals) o
    = (o', inr tt).
Proof.
  unfold demo_scenarios. cbv zeta. cbn [demo_rows direction amountIn].
  repeat match goal with
  | |- context [simulateSwap ?S ?a ?b ?c ?d ?e] =>
      destruct (simulateSwap S a b c d e) as [m|r] eqn:E;
        [vm_compute in E; discriminate E|clear E]
  end.
  eexists. reflexivity.
Qed.

(** X16. As compiled, demo mode never fails: without arguments, or with
    [--demo] and no help flag, [main] exits with status 0 and writes
    nothing to [std::cerr], whatever else is on the command line.  The
    three scenarios are 100, 1000 and 4000 exactly, and the drain guard
    lets all three through. *)
Theorem main_demo_binary64 (argv : list string) :
  tl argv = []
  \/ (~ In "--help" (tl argv) /\ ~ In "-h" (tl argv)
      /\ In "--demo" (tl argv)) ->
  status (main binary64 binary64_literals show stod argv) = 0%Z
  /\ err (main binary64 binary64_literals show stod argv) = ""
  /\ map (@amountIn float) (demo_scenarios binary64 binary64_literals)
     = [100%float; 1000%float; 4000%float].
Proof.
  intros H. unfold main. rewrite main_body_demo by exact H.
  unfold runDemo. cbv zeta.
  match goal with
  | |- context [demo_rows ?a ?b ?c ?d ?e ?f ?g] =>
      destruct (demo_rows_binary64 g) as [o' E]
  end.
  rewrite E. cbn [status err]. repeat split; reflexivity.
Qed.

End DemoBinary64.

(** ** More on the engine *)

Section EngineFacts.

Local Open Scope string_scope.

(** X17. In every arithmetic, floating point included, a swap that
    [simulateSwap] returns pays out less than the reserve it is paid
    from: [amountOut < reserveB] for A2B, [amountOut < reserveA] for
    B2A, as the program's own [<] decides it. *)
Theorem amountOut_below_reserve {T : Type} (S : Scalar T)
    (reserveA reserveB fee : T) (d : string) (amountIn : T)
    (r : SwapResult T) :
  simulateSwap S reserveA reserveB fee d amountIn = inr r ->
  ltb (amountOut r)
      (if uppercase d =? "A2B" then reserveB else reserveA) = true.
Proof.
  intros H. apply simulateSwap_inr in H as (_ & _ & H).
  destruct H as [[-> (out & _ & Hlt & ->)]|[-> (out & _ & Hlt & ->)]];
    exact Hlt.
Qed.





Local Open Scope R_scope.

(** X19. In exact arithmetic [simulateSwap] returns a result exactly on
    the inputs that satisfy its checks: both reserves [> 0],
    [amountIn > 0], [0 <= fee < 1] and a direction that reads A2B or
    B2A. *)
Theorem simulateSwap_exact_returns (reserveA reserveB fee : R) (d : string)
    (amountIn : R) :
  (exists r, simulateSwap exact reserveA reserveB fee d amountIn = inr r)
  <-> 0 < reserveA /\ 0 < reserveB /\ 0 < amountIn /\ 0 <= fee < 1
      /\ (uppercase d = "A2B"%string \/ uppercase d = "B2A"%string).
Proof.
  split.
  - intros [r H]. apply simulateSwap_exact_inr in H
      as (HA & HB & Hx & Hf & [[Hd _]|[Hd _]]); auto 6.
  - intros (HA & HB & Hx & Hf & [Hd|Hd]); eexists.
    + now apply simulateSwap_exact_A2B.
    + now apply simulateSwap_exact_B2A.
Qed.

(** X20. In exact arithmetic, for a fixed trade and pool, a higher fee
    gives a strictly smaller quote. *)
Theorem quote_decreasing_in_fee_exact
    (amountIn reserveIn reserveOut fee1 fee2 : R) :
  0 < amountIn -> 0 < reserveIn -> 0 < reserveOut ->
  0 <= fee1 -> fee1 < fee2 -> fee2 < 1 ->
  exists out1 out2,
    getAmountOut exact amountIn reserveIn reserveOut fee1 = inr out1
    /\ getAmountOut exact amountIn reserveIn reserveOut fee2 = inr out2
    /\ out2 < out1.
Proof.
  intros Ha Hi Ho H1 H12 H2. do 2 eexists. split; [|split].
  - apply getAmountOut_exact; auto; lra.
  - apply getAmountOut_exact; auto; lra.
  - apply curve_increasing; auto.
    + apply fee_scaled_pos; lra.
    + apply Rmult_lt_compat_l; lra.
Qed.

End EngineFacts.

(** ** Instances on the README's command line *)

Section ProgramWitnesses.

Local Open Scope string_scope.

Lemma printRow_width_witness :
  String.length
    (text (printRow show_demo
             {| name := "small"; direction := "A2B"; amountIn := 100%float |}
             {| amountOut := 0x1.8adcfb93af9bcp+6%float;
                newReserveA := 10100%float;
                newReserveB := 0x1.356a4608d8a0dp+13%float;
                effectivePrice := 0x1.f96cc72370238p-1%float;
                slippagePercent := 0x1.48c11b141911p+0%float |}
             fresh))
  = 101.
Proof.
  destruct (printRow_width show_demo
              {| name := "small"; direction := "A2B"; amountIn := 100%float |}
              {| amountOut := 0x1.8adcfb93af9bcp+6%float;
                 newReserveA := 10100%float;
                 newReserveB := 0x1.356a4608d8a0dp+13%float;
                 effectivePrice := 0x1.f96cc72370238p-1%float;
                 slippagePercent := 0x1.48c11b141911p+0%float |}
              fresh) as (E & _ & H).
  rewrite E, H; cbn; lia.
Defined.

Lemma main_help_witness :
  status (main binary64 binary64_literals show_demo stod_demo
            ["ammSim"; "--demo"; "--fee"; "abc"; "-h"])
  = 0%Z.
Proof.
  rewrite (main_help binary64 binary64_literals show_demo stod_demo "ammSim"
             ["--demo"; "--fee"; "abc"; "-h"]).
  - reflexivity.
  - discriminate.
  - right. cbn. auto.
Defined.

Lemma main_single_run_silent_witness :
  out (main binary64 binary64_literals show_demo stod_demo
         ["ammSim"; "--reserveA"; "100x"])
  = "".
Proof.
  apply (main_single_run_silent binary64 binary64_literals show_demo stod_demo
           "ammSim" ["--reserveA"; "100x"]).
  - discriminate.
  - cbn. intros [H|[H|[]]]; discriminate H.
  - cbn. intros [H|[H|[]]]; discriminate H.
  - cbn. intros [H|[H|[]]]; discriminate H.
  - reflexivity.
Defined.

Lemma main_missing_reserveA_witness :
  err (main binary64 binary64_literals show_demo stod_demo
         ["ammSim"; "--fee"; "0.003"; "--reserveA"])
  = "Error: Missing value for --reserveA" ++ nl
    ++ "Run with --help for usage." ++ nl.
Proof.
  rewrite (main_missing_reserveA binary64 binary64_literals show_demo
             stod_demo "ammSim" ["--fee"; "0.003"; "--reserveA"]).
  - reflexivity.
  - discriminate.
  - cbn. intros [H|[H|[H|[]]]]; discriminate H.
  - cbn. intros [H|[H|[H|[]]]]; discriminate H.
  - cbn. intros [H|[H|[H|[]]]]; discriminate H.
  - cbn. intros [H|[H|[]]]; discriminate H.
Defined.

Lemma main_first_parse_error_witness :
  err (main binary64 binary64_literals show_demo stod_demo
         ["ammSim"; "--reserveA"; "10000"; "--reserveB"; "100x";
          "--direction"; "sideways"])
  = "Error: Invalid number for --reserveB: 100x" ++ nl
    ++ "Run with --help for usage." ++ nl.
Proof.
  rewrite (main_first_parse_error binary64 binary64_literals show_demo
             stod_demo "ammSim"
             ["--reserveA"; "10000"; "--reserveB"; "100x";
              "--direction"; "sideways"]
             ["--reserveA"] ["--fee"; "--amountIn"] "--reserveB"
             "Invalid number for --reserveB: 100x").
  - reflexivity.
  - discriminate.
  - cbn. intros [H|[H|[H|[H|[H|[H|[]]]]]]]; discriminate H.
  - cbn. intros [H|[H|[H|[H|[H|[H|[]]]]]]]; discriminate H.
  - cbn. intros [H|[H|[H|[H|[H|[H|[]]]]]]]; discriminate H.
  - reflexivity.
  - intros f [<-|[]]. exists 10000%float. reflexivity.
  - reflexivity.
Defined.

Lemma main_missing_direction_witness :
  err (main binary64 binary64_literals show_demo stod_demo
         ["ammSim"; "--reserveA"; "10000"; "--reserveB"; "10000";
          "--fee"; "0.003"; "--amountIn"; "100"])
  = "Error: direction must be A2B or B2A" ++ nl
    ++ "Run with --help for usage." ++ nl.
Proof.
  rewrite (main_missing_direction binary64 binary64_literals show_demo
             stod_demo "ammSim"
             ["--reserveA"; "10000"; "--reserveB"; "10000";
              "--fee"; "0.003"; "--amountIn"; "100"]
             10000%float 10000%float fee_demo 100%float);
    try reflexivity; try discriminate;
    cbn; intuition discriminate.
Defined.

Lemma main_single_run_success_witness :
  main binary64 binary64_literals show_demo stod_demo ("ammSim" :: readme_args)
  = {| status := 0;
       out := "amountOut       = #" ++ nl
              ++ "new reserveA    = #" ++ nl
              ++ "new reserveB    = #" ++ nl
              ++ "effective price = #" ++ nl
              ++ "slippage (%)    = #" ++ nl;
       err := "" |}.
Proof.
  apply (main_single_run_success binary64 binary64_literals show_demo
           stod_demo "ammSim" readme_args
           10000%float 10000%float fee_demo 100%float
           {| amountOut := 0x1.8adcfb93af9bcp+6%float;
              newReserveA := 10100%float;
              newReserveB := 0x1.356a4608d8a0dp+13%float;
              effectivePrice := 0x1.f96cc72370238p-1%float;
              slippagePercent := 0x1.48c11b141911p+0%float |});
    try (vm_compute; reflexivity); try discriminate;
    cbn; intuition discriminate.
Defined.

Lemma main_demo_binary64_witness :
  status (main binary64 binary64_literals show_demo stod_demo
            ["ammSim"; "--reserveA"; "abc"; "--demo"])
  = 0%Z.
Proof.
  apply (main_demo_binary64 show_demo stod_demo
           ["ammSim"; "--reserveA"; "abc"; "--demo"]).
  right. cbn. repeat split; auto; intros [H|[H|[H|[]]]]; discriminate H.
Defined.

Lemma amountOut_below_reserve_witness :
  PrimFloat.ltb 0x1.8adcfb93af9bcp+6 10000 = true.
Proof.
  apply (amountOut_below_reserve binary64 10000%float 10000%float fee_demo
           "a2b" 100%float
           {| amountOut := 0x1.8adcfb93af9bcp+6%float;
              newReserveA := 10100%float;
              newReserveB := 0x1.356a4608d8a0dp+13%float;
              effectivePrice := 0x1.f96cc72370238p-1%float;
              slippagePercent := 0x1.48c11b141911p+0%float |}).
  vm_compute. reflexivity.
Defined.

Lemma quote_decreasing_in_fee_exact_witness :
  exists out1 out2,
    getAmountOut exact 100%R 10000%R 10000%R 0%R = inr out1
    /\ getAmountOut exact 100%R 10000%R 10000%R (3 / 1000)%R = inr out2
    /\ (out2 < out1)%R.
Proof.
  apply (quote_decreasing_in_fee_exact 100%R 10000%R 10000%R 0%R
           (3 / 1000)%R); lra.
Defined.

End ProgramWitnesses.
